(** * CryptoDataFetcher: the retrying HTTP fetch helper of
      [app/python/web_scraper/web_scraper.py]

    The development embeds the four methods of [CryptoDataFetcher]
    ([fetch_with_retry], [fetch_crypto_prices], [validate_price_data],
    [fetch_additional_market_data]) as computations of a small
    state-and-exception monad over a [world] that records every request
    sent, every [time.sleep] and every line printed, and proves the
    properties of the specification about them. *)

From Stdlib Require Import ZArith String Ascii List Lia.
From Stdlib Require Import Floats.SpecFloat.
From stdpp Require Import base gmap strings list pretty.

#[local] Set Warnings "-register-all".
#[local] Open Scope string_scope.
#[local] Open Scope Z_scope.

(** ** Python values and the built-in operations the module uses *)

Module Py.

(** The values [json.loads] produces: [None], booleans, integers, floats
    (with their infinities and NaN), strings, lists, and dictionaries
    keyed by strings. *)
Inductive value : Type :=
| VNone
| VBool (b : bool)
| VInt (z : Z)
| VFloat (f : spec_float)
| VStr (s : string)
| VList (l : list value)
| VDict (d : gmap string value).

(** The name Python prints for the type of a value. *)
Definition type_name (v : value) : string :=
  match v with
  | VNone => "NoneType"
  | VBool _ => "bool"
  | VInt _ => "int"
  | VFloat _ => "float"
  | VStr _ => "str"
  | VList _ => "list"
  | VDict _ => "dict"
  end.

(** Exceptions.  [RequestException] stands for
    [requests.exceptions.RequestException] and its subclasses
    ([ConnectionError], [ReadTimeout], [HTTPError], ...), told apart by
    [kind]; [OtherError] is any exception outside the hierarchies the
    module names (a [KeyboardInterrupt], a [MemoryError], ...). *)
Inductive request_error_kind := ConnectionError | ReadTimeout | HTTPError | OtherRequestError.

Inductive exn : Type :=
| RequestException (kind : request_error_kind) (msg : string)
| JSONDecodeError (msg : string)
| KeyError (msg : string)
| TypeError (msg : string)
| AttributeError (msg : string)
| OtherError (name msg : string).

(** [str(e)] *)
Definition exn_str (e : exn) : string :=
  match e with
  | RequestException _ msg | JSONDecodeError msg | KeyError msg
  | TypeError msg | AttributeError msg | OtherError _ msg => msg
  end.

(** [isinstance(e, requests.exceptions.RequestException)] *)
Definition is_request_exception (e : exn) : bool :=
  match e with RequestException _ _ => true | _ => false end.

Inductive result (A : Type) : Type :=
| Ok (a : A)
| Raise (e : exn).
Arguments Ok {A} a.
Arguments Raise {A} e.

(** [bool(v)] *)
Definition truthy (v : value) : bool :=
  match v with
  | VNone => false
  | VBool b => b
  | VInt z => negb (z =? 0)
  | VFloat (S754_zero _) => false
  | VFloat _ => true
  | VStr s => negb (String.eqb s EmptyString)
  | VList l => match l with [] => false | _ => true end
  | VDict d => negb (bool_decide (d = ∅))
  end.

(** [needle in haystack] for two strings: substring search. *)
Definition str_contains (haystack needle : string) : bool :=
  match String.index 0 needle haystack with Some _ => true | None => false end.

(** [s == v] for a string [s]: only an equal string is equal to it. *)
Definition eq_str (s : string) (v : value) : bool :=
  match v with VStr t => String.eqb s t | _ => false end.

(** [key in container] for a string [key]. *)
Definition contains (container : value) (key : string) : result bool :=
  match container with
  | VDict d => Ok (bool_decide (is_Some (d !! key)))
  | VList l => Ok (existsb (eq_str key) l)
  | VStr s => Ok (str_contains s key)
  | _ => Raise (TypeError ("argument of type '" ++ type_name container ++ "' is not iterable"))
  end.

Definition no_attribute (v : value) (attr : string) : exn :=
  AttributeError ("'" ++ type_name v ++ "' object has no attribute '" ++ attr ++ "'").

(** [obj.get(key, default)]: only dictionaries have the method. *)
Definition get (obj : value) (key : string) (dflt : value) : result value :=
  match obj with
  | VDict d => Ok (default dflt (d !! key))
  | _ => Raise (no_attribute obj "get")
  end.

(** Strings.  A [str] is a sequence of code points; it is represented
    here by its UTF-8 encoding, one [ascii] per byte, so that equality,
    concatenation and substring search on the representation are those of
    Python (a surrogate code point, which a JSON escape can produce, is
    encoded like any other code point).  A code point starts at every
    byte that is no continuation byte ([10xxxxxx]). *)
Definition is_continuation (c : ascii) : bool :=
  let n := nat_of_ascii c in ((128 <=? n) && (n <? 192))%nat.

(** [len(s)]: the number of code points of [s]. *)
Fixpoint char_length (s : string) : nat :=
  match s with
  | EmptyString => 0%nat
  | String c rest =>
      if is_continuation c then char_length rest else S (char_length rest)
  end.

(** [s[:n]]: the first [n] code points of [s], all of [s] when it has
    fewer. *)
Fixpoint take_chars (n : nat) (s : string) : string :=
  match s with
  | EmptyString => EmptyString
  | String c rest =>
      if is_continuation c then String c (take_chars n rest)
      else match n with
           | O => EmptyString
           | S n' => String c (take_chars n' rest)
           end
  end.

(** [str.upper] and [str.lower] map the code points of a string by the
    Unicode database of the interpreter.  The database is not part of
    the program: the two mappings are taken as given, and what is proved
    holds for every choice of them. *)
Record unicode := mkUnicode {
  str_upper : string -> string;
  str_lower : string -> string
}.

(** What the two mappings do on a string of ASCII characters: the
    letters change case, everything else stays. *)
Definition upper_char (c : ascii) : ascii :=
  let n := nat_of_ascii c in
  if ((97 <=? n) && (n <=? 122))%nat then ascii_of_nat (n - 32) else c.

Definition lower_char (c : ascii) : ascii :=
  let n := nat_of_ascii c in
  if ((65 <=? n) && (n <=? 90))%nat then ascii_of_nat (n + 32) else c.

Fixpoint map_chars (f : ascii -> ascii) (s : string) : string :=
  match s with
  | EmptyString => EmptyString
  | String c rest => String (f c) (map_chars f rest)
  end.

(** [obj.upper()]: only strings have the method. *)
Definition upper (ucd : unicode) (obj : value) : result value :=
  match obj with
  | VStr s => Ok (VStr (str_upper ucd s))
  | _ => Raise (no_attribute obj "upper")
  end.

(** [obj[:n]].  Strings and lists are sliced.  A dictionary is asked for
    the key [slice(None, n, None)]: a [TypeError] (unhashable slice) up
    to Python 3.11, a [KeyError] from Python 3.12 on, where slices are
    hashable; [hashable_slices] says which interpreter runs. *)
Definition slice_to (hashable_slices : bool) (obj : value) (n : nat) : result value :=
  match obj with
  | VStr s => Ok (VStr (take_chars n s))
  | VList l => Ok (VList (take n l))
  | VDict _ =>
      if hashable_slices
      then Raise (KeyError ("slice(None, " ++ pretty n ++ ", None)"))
      else Raise (TypeError "unhashable type: 'slice'")
  | _ => Raise (TypeError ("'" ++ type_name obj ++ "' object is not subscriptable"))
  end.

Definition dquote : string := String (ascii_of_nat 34) EmptyString.

(** [a + b] where [b] is a string. *)
Definition add_str (a : value) (b : string) : result value :=
  match a with
  | VStr s => Ok (VStr (s ++ b))
  | VList _ => Raise (TypeError ("can only concatenate list (not " ++ dquote ++ "str" ++ dquote ++ ") to list"))
  | _ => Raise (TypeError ("unsupported operand type(s) for +: '" ++ type_name a ++ "' and 'str'"))
  end.

(** [sep.join(items)] *)
Definition join (sep : string) (items : list string) : string := String.concat sep items.

(** [range(n)]: the integers from 0 up to [n - 1], none when [n <= 0]. *)
Definition range (n : Z) : list Z := Z.of_nat <$> seq 0 (Z.to_nat n).

End Py.

Import Py.

(** ** The world outside the interpreter

    A computation sees the network and leaves a [log] of what it did:
    the requests it sent, the seconds it slept and the lines it
    printed, oldest first. *)

Module Requests.

(** What [Session.get] is called with: the url, the [params] argument,
    the [timeout] argument and the headers of the session. *)
Record Request := mkRequest {
  req_url : string;
  req_params : option (gmap string string);
  req_timeout : Z;
  req_headers : gmap string string
}.

(** What [Response.json()] does with the body of a response: it returns
    the decoded value; it raises [JSONDecodeError] when the body is not
    valid JSON; or it lets through another exception of the decoder, which
    the library does not convert (a [ValueError] for an integer literal
    beyond the digit limit, a [RecursionError] for a body nested too
    deep). *)
Inductive decoding : Type :=
| Decoded (v : value)
| NotJSON (msg : string)
| DecoderFault (name msg : string).

(** A [requests.Response]: its status, and what decoding its body
    gives. *)
Record Response := mkResponse {
  status_code : Z;
  reason : string;
  json_body : decoding
}.

(** The statuses on which [raise_for_status] raises [HTTPError]: the
    client errors and the server errors, 400 to 599. *)
Definition is_error_status (code : Z) : bool := (400 <=? code) && (code <? 600).

(** The library's [Response.ok], which is also the truth value of a
    response object: [True] exactly when [raise_for_status] does not
    raise. *)
Definition ok (r : Response) : bool := negb (is_error_status (status_code r)).

Record Session := mkSession { headers : gmap string string }.

End Requests.
Import Requests.

Inductive event : Type :=
| Get (r : Request)
| Sleep (secs : Z)
| Print (line : string).

(** [network k r] is what the [k]-th request sent in this world gets
    when it is [r] (counting from 0): a response, or an exception of the
    transport. *)
Record world := mkWorld {
  network : nat -> Request -> result Response;
  log : list event
}.

Definition is_print (ev : event) : bool := match ev with Print _ => true | _ => false end.

(** The requests of a log, the seconds slept in it, and the log without
    its printed lines. *)
Definition gets (tr : list event) : list Request :=
  omap (fun ev => match ev with Get r => Some r | _ => None end) tr.
Definition sleeps (tr : list event) : list Z :=
  omap (fun ev => match ev with Sleep n => Some n | _ => None end) tr.
Definition io_events (tr : list event) : list event :=
  List.filter (fun ev => negb (is_print ev)) tr.

Definition record (tr : list event) (w : world) : world :=
  {| network := network w; log := log w ++ tr |}.

(** ** The monad of computations: state and exceptions *)

Definition M (A : Type) : Type := world -> result A * world.

#[global] Instance M_ret : MRet M := fun A a w => (Ok a, w).
#[global] Instance M_bind : MBind M := fun A B f m w =>
  match m w with
  | (Ok a, w') => f a w'
  | (Raise e, w') => (Raise e, w')
  end.

Definition raise {A} (e : exn) : M A := fun w => (Raise e, w).

(** A pure built-in that may raise. *)
Definition lift {A} (r : result A) : M A := fun w => (r, w).

(** [try: body  except <handles>: handler]: an exception the clause
    names is handled in the world the body left; any other propagates. *)
Definition try_except {A} (body : M A) (handles : exn -> bool) (handler : exn -> M A) : M A :=
  fun w =>
    match body w with
    | (Raise e, w') => if handles e then handler e w' else (Raise e, w')
    | done => done
    end.

Definition emit (ev : event) : M unit := fun w => (Ok tt, record [ev] w).

(** [print(line)] and [time.sleep(secs)] *)
Definition print (line : string) : M unit := emit (Print line).
Definition sleep (secs : Z) : M unit := emit (Sleep secs).

(** What a loop body or a block hands on: it has executed [return a], or
    it fell through to what comes next. *)
Inductive flow (A : Type) : Type :=
| Return (a : A)
| Next.
Arguments Return {A} a.
Arguments Next {A}.

(** [for x in items: body] *)
Fixpoint for_each {X A} (items : list X) (body : X -> M (flow A)) : M (flow A) :=
  match items with
  | [] => mret Next
  | x :: rest =>
      r ← body x;
      match r with
      | Return a => mret (Return a)
      | Next => for_each rest body
      end
  end.

(** A block followed by the statements after it. *)
Definition and_then {A} (block : M (flow A)) (after : M A) : M A :=
  r ← block;
  match r with
  | Return a => mret a
  | Next => after
  end.

(** ** The library calls of the module *)

(** [session.get(url, params=params, timeout=timeout)]: the request is
    logged and the network answers it. *)
Definition session_get (s : Session) (url : string) (params : option (gmap string string))
    (timeout : Z) : M Response :=
  fun w =>
    let r := mkRequest url params timeout (headers s) in
    (network w (length (gets (log w))) r, record [Get r] w).

(** [response.raise_for_status()] *)
Definition raise_for_status (response : Response) : M unit :=
  if ok response then mret tt
  else raise (RequestException HTTPError
                (pretty (status_code response) ++ " Error: " ++ reason response)).

(** [response.json()] *)
Definition json (response : Response) : M value :=
  match json_body response with
  | Decoded v => mret v
  | NotJSON msg => raise (JSONDecodeError msg)
  | DecoderFault name msg => raise (OtherError name msg)
  end.

(** [bool(response)] for an [Optional[requests.Response]] *)
Definition response_truthy (response : option Response) : bool :=
  match response with
  | Some r => ok r
  | None => false
  end.

(** ** class CryptoDataFetcher *)

Module CryptoDataFetcher.

Record t := mk {
  timeout : Z;
  max_retries : Z;
  session : Session
}.

(** [__init__]: [library_headers] are the headers a fresh
    [requests.Session()] starts with. *)
Definition init (library_headers : gmap string string) (timeout max_retries : Z) : t :=
  {| timeout := timeout;
     max_retries := max_retries;
     session := {| headers :=
       <["User-Agent" := "Mozilla/5.0 (Macintosh; Intel Mac OS X 10_15_7) AppleWebKit/537.36"]>
       (<["Accept" := "application/json,text/html,application/xhtml+xml,application/xml;q=0.9,*/*;q=0.8"]>
        library_headers) |} |}.

Definition fetch_with_retry (self : t) (url : string)
    (params : option (gmap string string)) : M (option Response) :=
  and_then
    (for_each (range (max_retries self)) (fun attempt =>
       try_except
         (response ← session_get (session self) url params (timeout self);
          raise_for_status response;;
          mret (Return (Some response)))
         is_request_exception
         (fun e =>
            let wait_time := 2 ^ attempt in
            print ("Attempt " ++ pretty (attempt + 1) ++ " failed: " ++ exn_str e);;
            (if attempt <? max_retries self - 1
             then print ("Retrying in " ++ pretty wait_time ++ " seconds...");;
                  sleep wait_time
             else print ("All " ++ pretty (max_retries self) ++ " attempts failed for " ++ url));;
            mret Next)))
    (mret None).

Definition required_fields : list string := ["usd"; "usd_24h_change"; "usd_market_cap"].

Definition validate_price_data (self : t) (data : value) (expected_ids : list string) : M bool :=
  match data with
  | VDict d =>
      and_then
        (for_each expected_ids (fun crypto_id =>
           match d !! crypto_id with
           | None =>
               print ("Missing data for " ++ crypto_id);;
               mret (Return false)
           | Some crypto_data =>
               for_each required_fields (fun field =>
                 present ← lift (contains crypto_data field);
                 if negb present
                 then print ("Missing field " ++ field ++ " for " ++ crypto_id);;
                      mret (Return false)
                 else mret Next)
           end))
        (mret true)
  | _ => mret false
  end.

Definition prices_url : string := "https://api.coingecko.com/api/v3/simple/price".

Definition prices_params (crypto_ids : list string) : gmap string string :=
  <["ids" := join "," crypto_ids]>
  (<["vs_currencies" := "usd"]>
   (<["include_24hr_change" := "true"]>
    {["include_market_cap" := "true"]})).

Definition is_json_decode_error (e : exn) : bool :=
  match e with JSONDecodeError _ => true | _ => false end.

Definition fetch_crypto_prices (self : t) (crypto_ids : list string) : M (option value) :=
  let url := prices_url in
  let params := prices_params crypto_ids in
  print ("Fetching price data for: " ++ join ", " crypto_ids);;
  response ← fetch_with_retry self url (Some params);
  and_then
    (match response with
     | Some r =>
         if response_truthy response then
           try_except
             (data ← json r;
              valid ← validate_price_data self data crypto_ids;
              if (valid : bool) then mret (Return (Some data))
              else print "Invalid or incomplete price data received";; mret Next)
             is_json_decode_error
             (fun e => print ("Failed to parse JSON response: " ++ exn_str e);; mret Next)
         else mret Next
     | None => mret Next
     end)
    (mret None).

Definition is_json_decode_or_key_error (e : exn) : bool :=
  match e with JSONDecodeError _ | KeyError _ => true | _ => false end.

Definition coin_url (ucd : unicode) (crypto_symbol : string) : string :=
  "https://api.coingecko.com/api/v3/coins/" ++ str_lower ucd crypto_symbol.

(** The dictionary display of the method: the three entries are
    evaluated in the order they are written, the condition of the
    conditional expression before its branch. *)
Definition market_summary (hashable_slices : bool) (ucd : unicode) (data : value) :
    M (gmap string value) :=
  name ← lift (get data "name" (VStr "Unknown"));
  symbol ← lift (get data "symbol" (VStr EmptyString));
  symbol ← lift (upper ucd symbol);
  description ← lift (get data "description" (VDict ∅));
  en ← lift (get description "en" VNone);
  description ←
    (if truthy en then
       description ← lift (get data "description" (VDict ∅));
       en ← lift (get description "en" (VStr EmptyString));
       head ← lift (slice_to hashable_slices en 100);
       lift (add_str head "...")
     else mret (VStr "No description available"));
  mret (<["name" := name]> (<["symbol" := symbol]> {["description" := description]})).

Definition fetch_additional_market_data (hashable_slices : bool) (ucd : unicode) (self : t)
    (crypto_symbol : string) : M (option (gmap string value)) :=
  let url := coin_url ucd crypto_symbol in
  response ← fetch_with_retry self url None;
  and_then
    (match response with
     | Some r =>
         if response_truthy response then
           try_except
             (data ← json r;
              summary ← market_summary hashable_slices ucd data;
              mret (Return (Some summary)))
             is_json_decode_or_key_error
             (fun e =>
                print ("Failed to parse additional data for " ++ crypto_symbol ++ ": " ++ exn_str e);;
                mret Next)
         else mret Next
     | None => mret Next
     end)
    (mret None).

End CryptoDataFetcher.
Import CryptoDataFetcher.

(** ** Outcomes of one attempt, as the specification classifies them *)

(** A retryable failure: the transport raised a [RequestException]
    (network error, timeout), or the response came back with a failure
    status, on which [raise_for_status] raises [HTTPError]. *)
Definition retryable (o : result Response) : Prop :=
  match o with
  | Ok r => ok r = false
  | Raise e => is_request_exception e = true
  end.

(** An expected outcome: a response of any status, or an exception of the
    network layer. *)
Definition expected (o : result Response) : Prop :=
  match o with
  | Ok _ => True
  | Raise e => is_request_exception e = true
  end.

(** The request every attempt of one call sends. *)
Definition request_of (self : t) (url : string) (params : option (gmap string string)) : Request :=
  mkRequest url params (timeout self) (headers (session self)).

(** The requests and sleeps of a call whose [n] attempts all fail, in
    order: attempt [i] is followed by a sleep of [2 ^ i] seconds unless it
    is the last one. *)
Definition backoff_schedule (req : Request) (n : Z) : list event :=
  flat_map (fun i => Get req :: (if i <? n - 1 then [Sleep (2 ^ i)] else [])) (range n).

Definition total_slept (tr : list event) : Z := foldr Z.add 0 (sleeps tr).

(** [sum(2 ** i for i in range(n))] *)
Definition sum_pow2 (n : Z) : Z := foldr Z.add 0 ((fun i => 2 ^ i) <$> range n).

(** One iteration of the loop of [fetch_with_retry]. *)
Definition attempt (self : t) (url : string) (params : option (gmap string string))
    (attempt : Z) : M (flow (option Response)) :=
  try_except
    (response ← session_get (session self) url params (timeout self);
     raise_for_status response;;
     mret (Return (Some response)))
    is_request_exception
    (fun e =>
       let wait_time := 2 ^ attempt in
       print ("Attempt " ++ pretty (attempt + 1) ++ " failed: " ++ exn_str e);;
       (if attempt <? max_retries self - 1
        then print ("Retrying in " ++ pretty wait_time ++ " seconds...");;
             sleep wait_time
        else print ("All " ++ pretty (max_retries self) ++ " attempts failed for " ++ url));;
       mret Next).

(** What a failed attempt number [i] leaves in the log when the exception
    handled is [e]. *)
Definition failed_attempt (self : t) (url : string) (params : option (gmap string string))
    (i : Z) (e : exn) : list event :=
  [Get (request_of self url params);
   Print ("Attempt " ++ pretty (i + 1) ++ " failed: " ++ exn_str e)] ++
  (if i <? max_retries self - 1
   then [Print ("Retrying in " ++ pretty (2 ^ i) ++ " seconds..."); Sleep (2 ^ i)]
   else [Print ("All " ++ pretty (max_retries self) ++ " attempts failed for " ++ url)]).

(** ** The loops of [validate_price_data] and the validity of a payload *)

(** The body of the inner loop, for one required field. *)
Definition check_field (crypto_id : string) (crypto_data : value) (field : string) : M (flow bool) :=
  present ← lift (contains crypto_data field);
  if negb present
  then print ("Missing field " ++ field ++ " for " ++ crypto_id);;
       mret (Return false)
  else mret Next.

(** The body of the outer loop, for one expected id. *)
Definition check_id (d : gmap string value) (crypto_id : string) : M (flow bool) :=
  match d !! crypto_id with
  | None =>
      print ("Missing data for " ++ crypto_id);;
      mret (Return false)
  | Some crypto_data => for_each required_fields (check_field crypto_id crypto_data)
  end.

(** What the two loops test, in the words of the code: [field in
    crypto_data] holds for every required field of the entry of every
    expected id. *)
Definition fields_found (crypto_data : value) : Prop :=
  forall field, In field required_fields -> contains crypto_data field = Ok true.

Definition ids_found (d : gmap string value) (expected_ids : list string) : Prop :=
  forall crypto_id, In crypto_id expected_ids ->
    exists crypto_data, d !! crypto_id = Some crypto_data /\ fields_found crypto_data.

(** Validity of a payload in the words of the specification: the payload
    is a keyed mapping, every expected id is a top-level key of it, and
    the record of every expected id has the three required sub-fields. *)
Definition has_required_fields (entry : value) : Prop :=
  exists fields : gmap string value,
    entry = VDict fields /\ forall field, In field required_fields -> is_Some (fields !! field).

Definition valid_payload (payload : value) (expected_ids : list string) : Prop :=
  exists d : gmap string value,
    payload = VDict d /\
    forall crypto_id, In crypto_id expected_ids ->
      exists entry, d !! crypto_id = Some entry /\ has_required_fields entry.

(** A computation without side effects leaves every world as it found
    it. *)
Definition side_effect_free {A} (m : M A) : Prop := forall w, (m w).2 = w.

(** The values on which [field in crypto_data] is defined: dictionaries,
    lists and strings. *)
Definition is_container (v : value) : bool :=
  match v with
  | VDict _ | VList _ | VStr _ => true
  | _ => false
  end.

(** ** The announcement of a price fetch *)

(** The line the method prints before it fetches. *)
Definition announce (crypto_ids : list string) : event :=
  Print ("Fetching price data for: " ++ join ", " crypto_ids).

(** ** Entries of the coin endpoint *)

(** The entry of a coin is well formed for the method when its symbol, if
    any, is a string, and its description, if any, is a mapping. *)
Definition symbol_is_text (d : gmap string value) : Prop :=
  d !! "symbol" = None \/ exists s, d !! "symbol" = Some (VStr s).

(** The description has no English text: it is absent, or it is a mapping
    whose entry [en] is absent or falsy (empty text, [null]). *)
Definition no_english_text (d : gmap string value) : Prop :=
  d !! "description" = None \/
  exists m : gmap string value,
    d !! "description" = Some (VDict m) /\ truthy (default VNone (m !! "en")) = false.

(** ** Sample fetchers, networks and payloads *)

Module Fixtures.

(** The fetcher of [main]: [CryptoDataFetcher(timeout=10, max_retries=3)]. *)
Definition fetcher : t := init ∅ 10 3.

Definition ok_response (body : value) : Response :=
  {| status_code := 200; reason := "OK"; json_body := Decoded body |}.

Definition unavailable : Response :=
  {| status_code := 503; reason := "Service Unavailable";
     json_body := NotJSON "Expecting value: line 1 column 1 (char 0)" |}.

(** A 200 response whose body is not JSON. *)
Definition not_json : Response :=
  {| status_code := 200; reason := "OK";
     json_body := NotJSON "Expecting value: line 1 column 1 (char 0)" |}.


(** Case mappings for the samples, which are ASCII strings: what
    [str.upper] and [str.lower] do on such strings. *)
Definition ascii_case : unicode :=
  {| str_upper := map_chars upper_char; str_lower := map_chars lower_char |}.

(** A network on which every request times out. *)
Definition world_down : world :=
  {| network := fun _ _ => Raise (RequestException ReadTimeout "Read timed out."); log := [] |}.

(** A network that answers 503, then times out, then serves [body]. *)
Definition world_flaky (body : value) : world :=
  {| network := fun k _ =>
       match k with
       | 0%nat => Ok unavailable
       | 1%nat => Raise (RequestException ReadTimeout "Read timed out.")
       | _ => Ok (ok_response body)
       end;
     log := [] |}.

(** A network that serves [r] at once. *)
Definition world_serving (r : Response) : world :=
  {| network := fun _ _ => Ok r; log := [] |}.

End Fixtures.

Module Payloads.

(** [{"bitcoin": {"usd": 1, "usd_24h_change": 1, "usd_market_cap": 1}}] *)
Definition complete : value :=
  VDict {["bitcoin" :=
    VDict (<["usd" := VInt 1]> (<["usd_24h_change" := VInt 1]> {["usd_market_cap" := VInt 1]}))]}.

(** [{"bitcoin": {"usd": 1}}] *)
Definition price_only : value := VDict {["bitcoin" := VDict {["usd" := VInt 1]}]}.

(** [{}] *)
Definition empty : value := VDict ∅.

(** [{"bitcoin": 1}] *)
Definition number_entry : value := VDict {["bitcoin" := VInt 1]}.

(** [{"bitcoin": "usd_24h_change usd_market_cap"}] *)
Definition text_entry : value := VDict {["bitcoin" := VStr "usd_24h_change usd_market_cap"]}.

(** [{"bitcoin": ["usd", "usd_24h_change", "usd_market_cap"]}] *)
Definition list_entry : value :=
  VDict {["bitcoin" := VList [VStr "usd"; VStr "usd_24h_change"; VStr "usd_market_cap"]]}.

End Payloads.

Module Coins.

(** [{"name": "Bitcoin", "symbol": null}]: no description at all. *)
Definition null_symbol : value :=
  VDict (<["name" := VStr "Bitcoin"]> {["symbol" := VNone]}).

(** [{"name": "Bitcoin", "symbol": "btc", "description": null}] *)
Definition null_description : value :=
  VDict (<["name" := VStr "Bitcoin"]> (<["symbol" := VStr "btc"]> {["description" := VNone]})).

(** [{"name": "Bitcoin", "symbol": "btc", "description": {"en": ""}}] *)
Definition empty_description : value :=
  VDict (<["name" := VStr "Bitcoin"]>
         (<["symbol" := VStr "btc"]> {["description" := VDict {["en" := VStr EmptyString]}]})).

(** [{"name": "Bitcoin", "symbol": "btc"}] *)
Definition no_description : value :=
  VDict (<["name" := VStr "Bitcoin"]> {["symbol" := VStr "btc"]}).

End Coins.


(** ** Basic facts about worlds and the monad *)

Section World.

Lemma record_nil w : record [] w = w.
Proof. destruct w. unfold record. simpl. by rewrite app_nil_r. Qed.

Lemma record_record tr1 tr2 w : record tr2 (record tr1 w) = record (tr1 ++ tr2)%list w.
Proof. unfold record. simpl. by rewrite app_assoc. Qed.

Lemma network_record tr w : network (record tr w) = network w.
Proof. reflexivity. Qed.

Lemma log_record tr w : log (record tr w) = (log w ++ tr)%list.
Proof. reflexivity. Qed.

Lemma gets_app tr1 tr2 : gets (tr1 ++ tr2)%list = (gets tr1 ++ gets tr2)%list.
Proof. apply omap_app. Qed.

Lemma sleeps_app tr1 tr2 : sleeps (tr1 ++ tr2)%list = (sleeps tr1 ++ sleeps tr2)%list.
Proof. apply omap_app. Qed.

Lemma io_events_app tr1 tr2 : io_events (tr1 ++ tr2)%list = (io_events tr1 ++ io_events tr2)%list.
Proof. apply List.filter_app. Qed.

Lemma gets_io_events tr : gets (io_events tr) = gets tr.
Proof. induction tr as [|[] tr IH]; simpl; by rewrite ?IH. Qed.

Lemma sleeps_io_events tr : sleeps (io_events tr) = sleeps tr.
Proof. induction tr as [|[] tr IH]; simpl; by rewrite ?IH. Qed.

Lemma bind_run {A B} (m : M A) (f : A -> M B) w :
  (m ≫= f) w = match m w with
               | (Ok a, w') => f a w'
               | (Raise e, w') => (Raise e, w')
               end.
Proof. reflexivity. Qed.

Lemma ret_run {A} (a : A) w : (mret a : M A) w = (Ok a, w).
Proof. reflexivity. Qed.

Lemma lift_ok_bind {A B} (a : A) (f : A -> M B) w : (lift (Ok a) ≫= f) w = f a w.
Proof. reflexivity. Qed.

End World.

(** ** One attempt of [fetch_with_retry] *)

Section Attempt.

Variable self : t.
Variable url : string.
Variable params : option (gmap string string).

Let req := request_of self url params.

Lemma fetch_with_retry_loop :
  fetch_with_retry self url params =
  and_then (for_each (range (max_retries self)) (attempt self url params)) (mret None).
Proof. reflexivity. Qed.

Lemma attempt_success i w resp :
  network w (length (gets (log w))) req = Ok resp ->
  ok resp = true ->
  attempt self url params i w = (Ok (Return (Some resp)), record [Get req] w).
Proof.
  intros Hnet Hok.
  unfold attempt, try_except, session_get. rewrite !bind_run.
  fold (request_of self url params). fold req. rewrite Hnet.
  unfold raise_for_status. rewrite Hok. reflexivity.
Qed.

Lemma attempt_retryable i w :
  retryable (network w (length (gets (log w))) req) ->
  exists e, attempt self url params i w = (Ok Next, record (failed_attempt self url params i e) w).
Proof.
  intros Hnet.
  unfold attempt, try_except, session_get. rewrite !bind_run.
  fold (request_of self url params). fold req.
  destruct (network w (length (gets (log w))) req) as [resp|e]; simpl in Hnet.
  - unfold raise_for_status. rewrite Hnet.
    eexists. unfold raise. cbn [is_request_exception].
    unfold failed_attempt, print, sleep, emit. rewrite !bind_run.
    destruct (i <? max_retries self - 1); rewrite ?bind_run, ?record_record; reflexivity.
  - rewrite Hnet. exists e.
    unfold failed_attempt, print, sleep, emit. rewrite !bind_run.
    destruct (i <? max_retries self - 1); rewrite ?bind_run, ?record_record; reflexivity.
Qed.

Lemma attempt_unexpected i w e :
  network w (length (gets (log w))) req = Raise e ->
  is_request_exception e = false ->
  attempt self url params i w = (Raise e, record [Get req] w).
Proof.
  intros Hnet He.
  unfold attempt, try_except, session_get. rewrite !bind_run.
  fold (request_of self url params). fold req. rewrite Hnet, He. reflexivity.
Qed.

Lemma io_events_failed_attempt i e :
  io_events (failed_attempt self url params i e) =
  Get req :: (if i <? max_retries self - 1 then [Sleep (2 ^ i)] else []).
Proof. unfold failed_attempt. destruct (i <? max_retries self - 1); reflexivity. Qed.

(** The loop over any list of attempt numbers, when every request it
    sends fails in a retryable way. *)
Lemma loop_all_retryable (attempts : list Z) : forall w,
  (forall j, (j < length attempts)%nat ->
             retryable (network w (length (gets (log w)) + j)%nat req)) ->
  exists tr,
    for_each attempts (attempt self url params) w = (Ok Next, record tr w) /\
    io_events tr =
      flat_map (fun i => Get req :: (if i <? max_retries self - 1 then [Sleep (2 ^ i)] else []))
               attempts.
Proof.
  induction attempts as [|i rest IH]; intros w Hfail.
  - exists []. simpl. rewrite record_nil. split; reflexivity.
  - destruct (attempt_retryable i w) as [e He].
    { specialize (Hfail 0%nat). rewrite Nat.add_0_r in Hfail. apply Hfail. simpl. lia. }
    destruct (IH (record (failed_attempt self url params i e) w)) as [tr [Hrun Hio]].
    { intros j Hj. rewrite network_record, log_record, gets_app, length_app.
      rewrite <- (gets_io_events (failed_attempt self url params i e)), io_events_failed_attempt.
      replace (length (gets (Get req :: (if i <? max_retries self - 1 then [Sleep (2 ^ i)] else []))))
        with 1%nat by (destruct (i <? max_retries self - 1); reflexivity).
      replace (length (gets (log w)) + 1 + j)%nat with (length (gets (log w)) + S j)%nat by lia.
      apply Hfail. simpl. lia. }
    exists (failed_attempt self url params i e ++ tr)%list. split.
    + cbn [for_each]. rewrite bind_run, He, Hrun, record_record. reflexivity.
    + rewrite io_events_app, io_events_failed_attempt, Hio. simpl.
      destruct (i <? max_retries self - 1); reflexivity.
Qed.

End Attempt.

(** ** Arithmetic of [range] and of the backoff schedule *)

Section Schedule.

Lemma length_range n : length (range n) = Z.to_nat n.
Proof. unfold range. by rewrite length_fmap, length_seq. Qed.

Lemma range_nonpos n : n <= 0 -> range n = [].
Proof. intros Hn. unfold range. by replace (Z.to_nat n) with 0%nat by lia. Qed.

Lemma range_succ (k : nat) : range (Z.of_nat (S k)) = (range (Z.of_nat k) ++ [Z.of_nat k])%list.
Proof. unfold range. rewrite !Nat2Z.id, seq_S, fmap_app. reflexivity. Qed.

Lemma range_split (k : nat) n :
  Z.of_nat k < n ->
  exists rest, range n = (range (Z.of_nat k) ++ Z.of_nat k :: rest)%list.
Proof.
  intros Hk. unfold range. rewrite Nat2Z.id.
  replace (Z.to_nat n) with (k + S (Z.to_nat n - S k))%nat by lia.
  rewrite seq_app, fmap_app. simpl. eauto.
Qed.

Lemma range_bound n i : In i (range n) -> 0 <= i < n.
Proof.
  unfold range. rewrite <- list_elem_of_In, list_elem_of_fmap.
  intros [j [-> Hj]]. apply list_elem_of_In, in_seq in Hj. lia.
Qed.

Lemma filter_all {A} (p : A -> bool) l :
  (forall x, In x l -> p x = true) -> List.filter p l = l.
Proof.
  induction l as [|x l IH]; intros Hp; simpl; [done|].
  rewrite Hp by (by left). f_equal. apply IH. intros y Hy. apply Hp. by right.
Qed.

(** The attempts that are followed by a sleep are all but the last. *)
Lemma filter_range n : List.filter (fun i => i <? n - 1) (range n) = range (n - 1).
Proof.
  destruct (Z_le_gt_dec n 0) as [Hn|Hn].
  - rewrite !range_nonpos by lia. reflexivity.
  - assert (Hlast : range n = (range (n - 1) ++ [n - 1])%list).
    { pose proof (range_succ (Z.to_nat (n - 1))) as Hs.
      replace (Z.of_nat (S (Z.to_nat (n - 1)))) with n in Hs by lia.
      replace (Z.of_nat (Z.to_nat (n - 1))) with (n - 1) in Hs by lia.
      exact Hs. }
    rewrite Hlast at 1. rewrite List.filter_app. simpl.
    rewrite Z.ltb_irrefl, app_nil_r.
    apply filter_all. intros i Hi. apply range_bound in Hi. apply Z.ltb_lt. lia.
Qed.

Lemma gets_flat_map req (tail : Z -> list event) l :
  (forall i, gets (tail i) = []) ->
  gets (flat_map (fun i => Get req :: tail i) l) = replicate (length l) req.
Proof.
  intros Htail. induction l as [|i l IH]; simpl; [done|].
  change (Get req :: (tail i ++ flat_map (fun i => Get req :: tail i) l)%list)
    with ([Get req] ++ tail i ++ flat_map (fun i => Get req :: tail i) l)%list.
  rewrite !gets_app, Htail, IH. reflexivity.
Qed.

Lemma sleeps_flat_map req n l :
  sleeps (flat_map (fun i => Get req :: (if i <? n - 1 then [Sleep (2 ^ i)] else [])) l) =
  (fun i => 2 ^ i) <$> List.filter (fun i => i <? n - 1) l.
Proof.
  induction l as [|i l IH]; simpl; [done|].
  destruct (i <? n - 1); simpl; fold sleeps; rewrite IH; reflexivity.
Qed.

Lemma gets_backoff_schedule req n :
  gets (backoff_schedule req n) = replicate (Z.to_nat n) req.
Proof.
  unfold backoff_schedule. rewrite gets_flat_map, length_range; [done|].
  intros i. by destruct (i <? n - 1).
Qed.

Lemma sleeps_backoff_schedule req n :
  sleeps (backoff_schedule req n) = (fun i => 2 ^ i) <$> range (n - 1).
Proof. unfold backoff_schedule. by rewrite sleeps_flat_map, filter_range. Qed.

(** The closed form of the total backoff: [2 ^ n - 1] seconds for [n]
    sleeps. *)
Lemma sum_pow2_closed (k : nat) : sum_pow2 (Z.of_nat k) = 2 ^ Z.of_nat k - 1.
Proof.
  unfold sum_pow2. induction k as [|k IH]; [reflexivity|].
  rewrite range_succ, fmap_app, foldr_app. simpl.
  rewrite Z.add_0_r.
  assert (Hshift : forall (l : list Z) a, foldr Z.add a l = foldr Z.add 0 l + a).
  { induction l as [|x l IHl]; intros a; simpl; [lia|]. rewrite IHl. lia. }
  rewrite Hshift, IH.
  replace (Z.of_nat (S k)) with (Z.of_nat k + 1) by lia.
  rewrite Z.pow_add_r by lia. lia.
Qed.

End Schedule.

(** ** [fetch_with_retry]: the retry policy *)

Section Retry.

Variable self : t.
Variable url : string.
Variable params : option (gmap string string).

Let req := request_of self url params.

Lemma for_each_app {X A} (l1 l2 : list X) (body : X -> M (flow A)) w w1 :
  for_each l1 body w = (Ok Next, w1) ->
  for_each (l1 ++ l2)%list body w = for_each l2 body w1.
Proof.
  revert w. induction l1 as [|x l1 IH]; intros w Hrun; simpl in *.
  - by inversion Hrun.
  - rewrite bind_run in *. destruct (body x w) as [[[a|]|e] w']; try discriminate.
    by apply IH.
Qed.

(** The three ways one attempt can end. *)
Lemma attempt_cases i w :
  (exists resp, ok resp = true /\
     attempt self url params i w = (Ok (Return (Some resp)), record [Get req] w)) \/
  (exists e, attempt self url params i w = (Ok Next, record (failed_attempt self url params i e) w)) \/
  (exists e, is_request_exception e = false /\
     network w (length (gets (log w))) req = Raise e /\
     attempt self url params i w = (Raise e, record [Get req] w)).
Proof.
  destruct (network w (length (gets (log w))) req) as [resp|e] eqn:Hnet.
  - destruct (ok resp) eqn:Hok.
    + left. exists resp. split; [done|]. by apply attempt_success.
    + right; left. apply attempt_retryable. fold req. by rewrite Hnet.
  - destruct (is_request_exception e) eqn:He.
    + right; left. apply attempt_retryable. fold req. by rewrite Hnet.
    + right; right. exists e. split; [done|]. split; [done|]. by apply attempt_unexpected.
Qed.

(** A response the loop returns passed [raise_for_status]. *)
Lemma loop_returns_ok (attempts : list Z) : forall w r w',
  for_each attempts (attempt self url params) w = (Ok (Return r), w') ->
  exists resp, r = Some resp /\ ok resp = true.
Proof.
  induction attempts as [|i rest IH]; intros w r w' Hrun; simpl in Hrun; [discriminate|].
  rewrite bind_run in Hrun.
  destruct (attempt_cases i w) as [[resp [Hok Ha]]|[[e Ha]|[e [_ [_ Ha]]]]]; rewrite Ha in Hrun.
  - inversion Hrun; subst. eauto.
  - eapply IH, Hrun.
  - discriminate.
Qed.

Lemma fetch_with_retry_returns_ok w resp w' :
  fetch_with_retry self url params w = (Ok (Some resp), w') -> ok resp = true.
Proof.
  rewrite fetch_with_retry_loop. unfold and_then. rewrite bind_run.
  destruct (for_each _ _ w) as [[[r|]|e] w1] eqn:Hloop; intros Hrun; try discriminate.
  apply loop_returns_ok in Hloop as [resp' [-> Hok]]. by inversion Hrun; subst.
Qed.

(** The loop never raises while the network behaves as expected. *)
Lemma loop_expected (attempts : list Z) : forall w,
  (forall k, expected (network w k req)) ->
  exists r tr, for_each attempts (attempt self url params) w = (Ok r, record tr w).
Proof.
  induction attempts as [|i rest IH]; intros w Hexp; simpl.
  - exists Next, []. by rewrite record_nil.
  - rewrite bind_run.
    destruct (attempt_cases i w) as [[resp [Hok Ha]]|[[e Ha]|[e [He [Hnet Ha]]]]]; rewrite Ha.
    + eauto.
    + destruct (IH (record (failed_attempt self url params i e) w)) as [r [tr Hrun]]; [done|].
      rewrite Hrun, record_record. eauto.
    + specialize (Hexp (length (gets (log w)))). fold req in Hnet.
      rewrite Hnet in Hexp. simpl in Hexp. congruence.
Qed.

End Retry.

(** A response is a retryable failure exactly when its status is an
    error status, 400 to 599. *)
Lemma retryable_error_status (r : Response) :
  retryable (Ok r) <-> 400 <= status_code r < 600.
Proof.
  simpl. unfold ok, is_error_status.
  destruct (400 <=? status_code r) eqn:Hlow; destruct (status_code r <? 600) eqn:Hhigh; simpl;
    rewrite ?Z.leb_le, ?Z.leb_gt, ?Z.ltb_lt, ?Z.ltb_ge in *; split; (done || lia).
Qed.




(** C2.  When attempt [k < max_retries] is the first to succeed, every
    earlier one failing in a retryable way, [fetch_with_retry] returns the
    response of attempt [k] and sends no request after it: [k + 1]
    requests in all, each of the first [k] followed by its backoff sleep. *)
Theorem fetch_with_retry_first_success (self : t) (url : string)
    (params : option (gmap string string)) (w : world) (k : nat) (resp : Response) :
  Z.of_nat k < max_retries self ->
  (forall j, (j < k)%nat ->
     retryable (network w (length (gets (log w)) + j)%nat (request_of self url params))) ->
  network w (length (gets (log w)) + k)%nat (request_of self url params) = Ok resp ->
  ok resp = true ->
  exists tr,
    fetch_with_retry self url params w = (Ok (Some resp), record tr w) /\
    gets tr = replicate (S k) (request_of self url params) /\
    io_events tr =
      (flat_map (fun i => [Get (request_of self url params); Sleep (2 ^ i)]) (range (Z.of_nat k))
       ++ [Get (request_of self url params)])%list.
Proof.
  intros Hk Hfail Hnet Hok.
  set (req := request_of self url params) in *.
  destruct (range_split k (max_retries self) Hk) as [rest Hsplit].
  destruct (loop_all_retryable self url params (range (Z.of_nat k)) w) as [tr [Hrun Hio]].
  { intros j Hj. rewrite length_range, Nat2Z.id in Hj. by apply Hfail. }
  assert (Hio' : io_events tr = flat_map (fun i => [Get req; Sleep (2 ^ i)]) (range (Z.of_nat k))).
  { rewrite Hio. fold req.
    assert (Hall : forall l, (forall i, In i l -> i < max_retries self - 1) ->
      flat_map (fun i => Get req :: (if i <? max_retries self - 1 then [Sleep (2 ^ i)] else [])) l =
      flat_map (fun i => [Get req; Sleep (2 ^ i)]) l).
    { induction l as [|i l IH]; intros Hl; simpl; [done|].
      rewrite IH by (intros; apply Hl; by right).
      assert ((i <? max_retries self - 1) = true) as -> by (apply Z.ltb_lt, Hl; by left).
      reflexivity. }
    apply Hall. intros i Hi. apply range_bound in Hi. lia. }
  assert (Hgets : gets tr = replicate k req).
  { rewrite <- gets_io_events, Hio'.
    rewrite (gets_flat_map req (fun i => [Sleep (2 ^ i)])) by done.
    by rewrite length_range, Nat2Z.id. }
  exists (tr ++ [Get req])%list. split; [|split].
  - rewrite fetch_with_retry_loop. unfold and_then. rewrite bind_run, Hsplit.
    rewrite (for_each_app _ _ _ _ _ Hrun). cbn [for_each]. rewrite bind_run.
    rewrite (attempt_success self url params (Z.of_nat k) (record tr w) resp), ?record_record; [done| |done].
    rewrite network_record, log_record, gets_app, length_app, Hgets, length_replicate.
    exact Hnet.
  - rewrite gets_app, Hgets. simpl.
    change (req :: replicate k req) with (replicate (S k) req).
    by rewrite replicate_S_end.
  - by rewrite io_events_app, Hio'.
Qed.

Lemma fetch_with_retry_first_success_witness :
  exists tr,
    fetch_with_retry Fixtures.fetcher "https://example.org" None (Fixtures.world_flaky VNone)
      = (Ok (Some (Fixtures.ok_response VNone)), record tr (Fixtures.world_flaky VNone)) /\
    gets tr = replicate 3 (request_of Fixtures.fetcher "https://example.org" None) /\
    io_events tr =
      (flat_map (fun i => [Get (request_of Fixtures.fetcher "https://example.org" None); Sleep (2 ^ i)])
         (range 2)
       ++ [Get (request_of Fixtures.fetcher "https://example.org" None)])%list.
Proof.
  apply (fetch_with_retry_first_success Fixtures.fetcher "https://example.org" None
           (Fixtures.world_flaky VNone) 2 (Fixtures.ok_response VNone)).
  - reflexivity.
  - intros [|[|j]] Hj; [reflexivity | reflexivity | lia].
  - reflexivity.
  - reflexivity.
Defined.

(** C3.  [fetch_with_retry] raises nothing for the expected failure
    modes: whatever sequence of successes, network-layer exceptions and
    failure statuses the attempts meet, the call returns normally, with a
    response or with [None]. *)
Theorem fetch_with_retry_never_raises (self : t) (url : string)
    (params : option (gmap string string)) (w : world) :
  (forall k, expected (network w k (request_of self url params))) ->
  exists (r : option Response) (tr : list event),
    fetch_with_retry self url params w = (Ok r, record tr w).
Proof.
  intros Hexp.
  destruct (loop_expected self url params (range (max_retries self)) w Hexp) as [r [tr Hrun]].
  rewrite fetch_with_retry_loop. unfold and_then. rewrite bind_run, Hrun.
  destruct r as [r|]; eauto.
Qed.

Lemma fetch_with_retry_never_raises_witness :
  exists (r : option Response) (tr : list event),
    fetch_with_retry Fixtures.fetcher "https://example.org" None (Fixtures.world_flaky VNone)
      = (Ok r, record tr (Fixtures.world_flaky VNone)).
Proof.
  apply (fetch_with_retry_never_raises Fixtures.fetcher "https://example.org" None
           (Fixtures.world_flaky VNone)).
  intros [|[|k]]; reflexivity.
Defined.

(** An exception from outside the [RequestException] hierarchy is not
    handled by the loop: it reaches the caller from the first attempt. *)
Lemma fetch_with_retry_propagates_unexpected (self : t) (url : string)
    (params : option (gmap string string)) (w : world) (e : exn) :
  0 < max_retries self ->
  network w (length (gets (log w))) (request_of self url params) = Raise e ->
  is_request_exception e = false ->
  fetch_with_retry self url params w = (Raise e, record [Get (request_of self url params)] w).
Proof.
  intros Hpos Hnet He.
  destruct (range_split 0 (max_retries self) Hpos) as [rest Hsplit].
  change (range (Z.of_nat 0) ++ Z.of_nat 0 :: rest)%list with (0 :: rest) in Hsplit.
  rewrite fetch_with_retry_loop, Hsplit. unfold and_then. cbn [for_each].
  rewrite !bind_run. by rewrite (attempt_unexpected self url params 0 w e).
Qed.

(** C10.  With [max_retries] zero or negative, [fetch_with_retry] returns
    [None] at once: no request is sent, nothing is slept, the world is
    left as it was. *)
Theorem fetch_with_retry_no_attempts (self : t) (url : string)
    (params : option (gmap string string)) (w : world) :
  max_retries self <= 0 ->
  fetch_with_retry self url params w = (Ok None, w).
Proof.
  intros Hn. rewrite fetch_with_retry_loop, range_nonpos by done. reflexivity.
Qed.

Lemma fetch_with_retry_no_attempts_witness :
  fetch_with_retry (init ∅ 10 0) "https://example.org" None Fixtures.world_down
    = (Ok None, Fixtures.world_down).
Proof.
  apply (fetch_with_retry_no_attempts (init ∅ 10 0) "https://example.org" None Fixtures.world_down).
  simpl. lia.
Defined.

(** ** [validate_price_data] *)

Section Validate.

Lemma validate_price_data_loop self d expected_ids :
  validate_price_data self (VDict d) expected_ids =
  and_then (for_each expected_ids (check_id d)) (mret true).
Proof. reflexivity. Qed.

Lemma check_field_run crypto_id crypto_data field w :
  check_field crypto_id crypto_data field w =
  match contains crypto_data field with
  | Ok true => (Ok Next, w)
  | Ok false =>
      (Ok (Return false),
       record [Print ("Missing field " ++ field ++ " for " ++ crypto_id)] w)
  | Raise e => (Raise e, w)
  end.
Proof.
  unfold check_field, lift. rewrite bind_run.
  destruct (contains crypto_data field) as [[|]|e]; reflexivity.
Qed.

Lemma check_id_run d crypto_id w :
  check_id d crypto_id w =
  match d !! crypto_id with
  | None => (Ok (Return false), record [Print ("Missing data for " ++ crypto_id)] w)
  | Some crypto_data => for_each required_fields (check_field crypto_id crypto_data) w
  end.
Proof. unfold check_id. destruct (d !! crypto_id); reflexivity. Qed.

(** The inner loop: all fields found, or one missing (a line is
    printed), or the membership test itself raises. *)
Lemma check_fields_cases crypto_id crypto_data (fields : list string) :
  ((forall f, In f fields -> contains crypto_data f = Ok true) /\
   forall w, for_each fields (check_field crypto_id crypto_data) w = (Ok Next, w)) \/
  ((exists f, In f fields /\ contains crypto_data f <> Ok true) /\
   ((exists line, forall w,
       for_each fields (check_field crypto_id crypto_data) w
         = (Ok (Return false), record [Print line] w)) \/
    (exists e, forall w,
       for_each fields (check_field crypto_id crypto_data) w = (Raise e, w)))).
Proof.
  induction fields as [|f rest IH].
  - left. split; [intros f []|reflexivity].
  - destruct (contains crypto_data f) as [[|]|e] eqn:Hf.
    + destruct IH as [[Hall Hrun]|[[g [Hg Hbad]] Hrun]].
      * left. split.
        -- intros g [<-|Hg]; [done|by apply Hall].
        -- intros w. cbn [for_each]. rewrite bind_run, check_field_run, Hf. apply Hrun.
      * right. split; [exists g; split; [by right|done]|].
        destruct Hrun as [[line Hrun]|[e Hrun]]; [left; exists line|right; exists e];
          intros w; cbn [for_each]; rewrite bind_run, check_field_run, Hf; apply Hrun.
    + right. split; [exists f; split; [by left|congruence]|].
      left. eexists. intros w. cbn [for_each]. rewrite bind_run, check_field_run, Hf.
      reflexivity.
    + right. split; [exists f; split; [by left|congruence]|].
      right. exists e. intros w. cbn [for_each]. rewrite bind_run, check_field_run, Hf.
      reflexivity.
Qed.

(** The outer loop, in the same three cases. *)
Lemma check_ids_cases d (expected_ids : list string) :
  (ids_found d expected_ids /\
   forall w, for_each expected_ids (check_id d) w = (Ok Next, w)) \/
  (~ ids_found d expected_ids /\
   ((exists line, forall w,
       for_each expected_ids (check_id d) w = (Ok (Return false), record [Print line] w)) \/
    (exists e, forall w, for_each expected_ids (check_id d) w = (Raise e, w)))).
Proof.
  induction expected_ids as [|crypto_id rest IH].
  - left. split; [intros c []|reflexivity].
  - destruct (d !! crypto_id) as [crypto_data|] eqn:Hd.
    + destruct (check_fields_cases crypto_id crypto_data required_fields)
        as [[Hall Hin]|[[f [Hf Hbad]] Hin]].
      * destruct IH as [[Hfound Hrun]|[Hnot Hrun]].
        -- left. split.
           ++ intros c [<-|Hc]; [eauto|by apply Hfound].
           ++ intros w. cbn [for_each]. rewrite bind_run, check_id_run, Hd, Hin. apply Hrun.
        -- right. split; [intros Hfound; apply Hnot; intros c Hc; apply Hfound; by right|].
           destruct Hrun as [[line Hrun]|[e Hrun]]; [left; exists line|right; exists e];
             intros w; cbn [for_each]; rewrite bind_run, check_id_run, Hd, Hin; apply Hrun.
      * right. split.
        { intros Hfound. destruct (Hfound crypto_id) as [c' [Hc' Hall]]; [by left|].
          rewrite Hd in Hc'. inversion Hc'; subst. by apply Hbad, Hall. }
        destruct Hin as [[line Hin]|[e Hin]]; [left; exists line|right; exists e];
          intros w; cbn [for_each]; rewrite bind_run, check_id_run, Hd, Hin; reflexivity.
    + right. split.
      { intros Hfound. destruct (Hfound crypto_id) as [c' [Hc' _]]; [by left|]. congruence. }
      left. eexists. intros w. cbn [for_each]. rewrite bind_run, check_id_run, Hd.
      reflexivity.
Qed.

(** The inner loop, with the line it prints: all fields found; or a
    field is missing and reported; or the membership test raises. *)
Lemma check_fields_report crypto_id entry (fields : list string) :
  ((forall f, In f fields -> contains entry f = Ok true) /\
   forall w, for_each fields (check_field crypto_id entry) w = (Ok Next, w)) \/
  (exists f, In f fields /\ contains entry f = Ok false /\
     forall w, for_each fields (check_field crypto_id entry) w =
       (Ok (Return false),
        record [Print ("Missing field " ++ f ++ " for " ++ crypto_id)] w)) \/
  (exists f e, In f fields /\ contains entry f = Raise e /\
     forall w, for_each fields (check_field crypto_id entry) w = (Raise e, w)).
Proof.
  induction fields as [|f rest IH].
  - left. split; [intros f []|reflexivity].
  - destruct (contains entry f) as [[|]|e] eqn:Hf.
    + destruct IH as [[Hall Hrun]|[[g [Hg [Hbad Hrun]]]|[g [e [Hg [Hbad Hrun]]]]]].
      * left. split.
        -- intros g [<-|Hg]; [done|by apply Hall].
        -- intros w. cbn [for_each]. rewrite bind_run, check_field_run, Hf. apply Hrun.
      * right; left. exists g. split; [by right|]. split; [done|].
        intros w. cbn [for_each]. rewrite bind_run, check_field_run, Hf. apply Hrun.
      * right; right. exists g, e. split; [by right|]. split; [done|].
        intros w. cbn [for_each]. rewrite bind_run, check_field_run, Hf. apply Hrun.
    + right; left. exists f. split; [by left|]. split; [done|].
      intros w. cbn [for_each]. rewrite bind_run, check_field_run, Hf. reflexivity.
    + right; right. exists f, e. split; [by left|]. split; [done|].
      intros w. cbn [for_each]. rewrite bind_run, check_field_run, Hf. reflexivity.
Qed.

(** The outer loop, with the line it prints: every id found with its
    fields; or an id is missing and reported; or a field of an entry is
    missing and reported; or the membership test on an entry raises. *)
Lemma check_ids_report d (expected_ids : list string) :
  (ids_found d expected_ids /\
   forall w, for_each expected_ids (check_id d) w = (Ok Next, w)) \/
  (exists c, In c expected_ids /\ d !! c = None /\
     forall w, for_each expected_ids (check_id d) w =
       (Ok (Return false), record [Print ("Missing data for " ++ c)] w)) \/
  (exists c entry f, In c expected_ids /\ d !! c = Some entry /\
     In f required_fields /\ contains entry f = Ok false /\
     forall w, for_each expected_ids (check_id d) w =
       (Ok (Return false), record [Print ("Missing field " ++ f ++ " for " ++ c)] w)) \/
  (exists c entry f e, In c expected_ids /\ d !! c = Some entry /\
     In f required_fields /\ contains entry f = Raise e /\
     forall w, for_each expected_ids (check_id d) w = (Raise e, w)).
Proof.
  induction expected_ids as [|c rest IH].
  - left. split; [intros c []|reflexivity].
  - destruct (d !! c) as [entry|] eqn:Hd.
    + destruct (check_fields_report c entry required_fields)
        as [[Hall Hin]|[[f [Hf [Hbad Hin]]]|[f [e [Hf [Hbad Hin]]]]]].
      * destruct IH as [[Hfound Hrun]|[[c' [Hc' [Hd' Hrun]]]|
          [[c' [entry' [f [Hc' [Hd' [Hf [Hbad Hrun]]]]]]]|
           [c' [entry' [f [e [Hc' [Hd' [Hf [Hbad Hrun]]]]]]]]]]].
        -- left. split.
           ++ intros c' [<-|Hc']; [eauto|by apply Hfound].
           ++ intros w. cbn [for_each]. rewrite bind_run, check_id_run, Hd, Hin. apply Hrun.
        -- right; left. exists c'. split; [by right|]. split; [done|].
           intros w. cbn [for_each]. rewrite bind_run, check_id_run, Hd, Hin. apply Hrun.
        -- right; right; left. exists c', entry', f. split; [by right|].
           split; [done|]. split; [done|]. split; [done|].
           intros w. cbn [for_each]. rewrite bind_run, check_id_run, Hd, Hin. apply Hrun.
        -- right; right; right. exists c', entry', f, e. split; [by right|].
           split; [done|]. split; [done|]. split; [done|].
           intros w. cbn [for_each]. rewrite bind_run, check_id_run, Hd, Hin. apply Hrun.
      * right; right; left. exists c, entry, f. split; [by left|].
        split; [done|]. split; [done|]. split; [done|].
        intros w. cbn [for_each]. rewrite bind_run, check_id_run, Hd, Hin. reflexivity.
      * right; right; right. exists c, entry, f, e. split; [by left|].
        split; [done|]. split; [done|]. split; [done|].
        intros w. cbn [for_each]. rewrite bind_run, check_id_run, Hd, Hin. reflexivity.
    + right; left. exists c. split; [by left|]. split; [done|].
      intros w. cbn [for_each]. rewrite bind_run, check_id_run, Hd. reflexivity.
Qed.

(** The method returns [True] exactly when both loops run to their
    end. *)
Lemma validate_price_data_true self data expected_ids w :
  (validate_price_data self data expected_ids w).1 = Ok true <->
  exists d, data = VDict d /\ ids_found d expected_ids.
Proof.
  destruct data as [| | | | | |d];
    try (split; [discriminate|intros [d [Hd _]]; discriminate]).
  rewrite validate_price_data_loop. unfold and_then. rewrite bind_run.
  destruct (check_ids_cases d expected_ids) as [[Hfound Hrun]|[Hnot [[line Hrun]|[e Hrun]]]];
    rewrite Hrun; simpl.
  - split; [eauto|done].
  - split; [discriminate|]. intros [d' [Hd Hfound]]. inversion Hd; subst. contradiction.
  - split; [discriminate|]. intros [d' [Hd Hfound]]. inversion Hd; subst. contradiction.
Qed.

Lemma fields_found_dict (fields : gmap string value) :
  fields_found (VDict fields) <-> has_required_fields (VDict fields).
Proof.
  unfold fields_found, has_required_fields. simpl. split.
  - intros Hall. exists fields. split; [done|]. intros f Hf.
    specialize (Hall f Hf). inversion Hall as [Hdec]. by apply bool_decide_eq_true in Hdec.
  - intros [fields' [Heq Hall]] f Hf. inversion Heq; subst.
    f_equal. apply bool_decide_eq_true. by apply Hall.
Qed.

(** On payloads whose entries for the expected ids are mappings, the
    method decides validity as the specification words it. *)
Lemma validate_price_data_mapping_records self d expected_ids w :
  (forall crypto_id entry, In crypto_id expected_ids -> d !! crypto_id = Some entry ->
     exists fields, entry = VDict fields) ->
  (validate_price_data self (VDict d) expected_ids w).1 = Ok true <->
  valid_payload (VDict d) expected_ids.
Proof.
  intros Hmaps. rewrite validate_price_data_true. unfold valid_payload, ids_found. split.
  - intros [d' [Hd Hfound]]. inversion Hd; subst d'. exists d. split; [done|].
    intros c Hc. destruct (Hfound c Hc) as [entry [Hentry Hfields]].
    exists entry. split; [done|].
    destruct (Hmaps c entry Hc Hentry) as [fields ->]. by apply fields_found_dict.
  - intros [d' [Hd Hvalid]]. inversion Hd; subst d'. exists d. split; [done|].
    intros c Hc. destruct (Hvalid c Hc) as [entry [Hentry Hfields]].
    exists entry. split; [done|].
    destruct (Hmaps c entry Hc Hentry) as [fields ->]. by apply fields_found_dict.
Qed.

(** A payload that is not a dictionary is rejected, silently. *)
Lemma validate_price_data_not_dict self data expected_ids w :
  (forall d, data <> VDict d) ->
  validate_price_data self data expected_ids w = (Ok false, w).
Proof. intros Hd. destruct data; try reflexivity. by destruct (Hd d). Qed.

End Validate.

(** The three sample calls of the specification. *)
Lemma validate_price_data_samples (self : t) (w : world) :
  (validate_price_data self Payloads.empty ["bitcoin"] w).1 = Ok false /\
  (validate_price_data self Payloads.price_only ["bitcoin"] w).1 = Ok false /\
  (validate_price_data self Payloads.complete ["bitcoin"] w).1 = Ok true.
Proof. repeat split; reflexivity. Qed.

(** C4.  The method returns [True] for the payload
    [{"bitcoin": "usd_24h_change usd_market_cap"}] and the expected id
    [bitcoin], whose entry is a string and has no sub-field at all: the
    three tests [field in crypto_data] are substring searches there.  On
    payloads whose entries are mappings the method does decide validity
    ([validate_price_data_mapping_records]). *)
Theorem validate_price_data_accepts_text_entry (self : t) (w : world) :
  validate_price_data self Payloads.text_entry ["bitcoin"] w = (Ok true, w) /\
  ~ valid_payload Payloads.text_entry ["bitcoin"].
Proof.
  split; [reflexivity|].
  intros [d [Hd Hvalid]]. inversion Hd; subst d.
  destruct (Hvalid "bitcoin") as [entry [Hentry [fields [Hfields _]]]]; [by left|].
  vm_compute in Hentry. inversion Hentry; subst entry. discriminate.
Qed.

(** The same happens with an entry that is a list of the field names. *)
Lemma validate_price_data_accepts_list_entry (self : t) (w : world) :
  validate_price_data self Payloads.list_entry ["bitcoin"] w = (Ok true, w) /\
  ~ valid_payload Payloads.list_entry ["bitcoin"].
Proof.
  split; [reflexivity|].
  intros [d [Hd Hvalid]]. inversion Hd; subst d.
  destruct (Hvalid "bitcoin") as [entry [Hentry [fields [Hfields _]]]]; [by left|].
  vm_compute in Hentry. inversion Hentry; subst entry. discriminate.
Qed.

(** C7.  On the payload [{"bitcoin": 1}] and the expected id [bitcoin]
    the method does not return a boolean: the test [field in crypto_data]
    on the integer raises [TypeError], which nothing in the method
    handles. *)
Theorem validate_price_data_raises_on_number_entry (self : t) (w : world) :
  validate_price_data self Payloads.number_entry ["bitcoin"] w =
  (Raise (TypeError "argument of type 'int' is not iterable"), w).
Proof. reflexivity. Qed.

(** The method returns a boolean whenever the entries of the expected ids
    are dictionaries, lists or strings. *)
Lemma validate_price_data_total_on_containers (self : t) (d : gmap string value)
    (expected_ids : list string) (w : world) :
  (forall crypto_id entry, In crypto_id expected_ids -> d !! crypto_id = Some entry ->
     forall field, exists b, contains entry field = Ok b) ->
  exists b w', validate_price_data self (VDict d) expected_ids w = (Ok b, w').
Proof.
  intros Hcont. rewrite validate_price_data_loop. unfold and_then. rewrite bind_run.
  revert w. induction expected_ids as [|c rest IH]; intros w; cbn [for_each].
  - eexists _, _. reflexivity.
  - rewrite bind_run, check_id_run.
    destruct (d !! c) as [entry|] eqn:Hd; [|eexists _, _; reflexivity].
    assert (Hinner : forall fields w0,
      (exists w1, for_each fields (check_field c entry) w0 = (Ok Next, w1) /\ w1 = w0) \/
      (exists w1, for_each fields (check_field c entry) w0 = (Ok (Return false), w1))).
    { induction fields as [|f fields IHf]; intros w0; cbn [for_each]; [left; eauto|].
      rewrite bind_run, check_field_run.
      destruct (Hcont c entry (or_introl eq_refl) Hd f) as [[|] ->]; [apply IHf|right; eauto]. }
    destruct (Hinner required_fields w) as [[w1 [-> ->]]|[w1 ->]].
    + apply IH. intros c' entry' Hc'. apply Hcont. by right.
    + eexists _, _. reflexivity.
Qed.

(** C8, as stated, fails: rejecting [{}] for the expected id [bitcoin]
    prints a line, so the call is not free of side effects. *)
Lemma validate_price_data_prints :
  ~ side_effect_free (validate_price_data Fixtures.fetcher Payloads.empty ["bitcoin"]).
Proof.
  intros Hfree. specialize (Hfree Fixtures.world_down).
  apply (f_equal log) in Hfree. discriminate.
Qed.

(** C8, amended.  The result of [validate_price_data] and what the call
    adds to the log depend on the payload and the expected ids alone,
    neither on the fetcher nor on the world, so that two calls on the same
    input return the same result; the call sends no request and sleeps
    nothing.  It is silent when it returns [True] (every expected id is
    found with its fields), when it rejects a payload that is no
    dictionary, and when the membership test on an entry raises; when
    it returns [False] on a dictionary it prints exactly one line,
    [Missing data for <id>] for an expected id the payload lacks or
    [Missing field <field> for <id>] for a required field the entry
    of an expected id lacks. *)
Theorem validate_price_data_deterministic (data : value) (expected_ids : list string) :
  exists (r : result bool) (tr : list event),
    (forall (self : t) (w : world),
       validate_price_data self data expected_ids w = (r, record tr w)) /\
    ((r = Ok true /\ tr = [] /\
      exists d, data = VDict d /\ ids_found d expected_ids) \/
     (r = Ok false /\ tr = [] /\ forall d, data <> VDict d) \/
     (exists d c,
        data = VDict d /\ In c expected_ids /\ d !! c = None /\
        r = Ok false /\ tr = [Print ("Missing data for " ++ c)]) \/
     (exists d c entry f,
        data = VDict d /\ In c expected_ids /\ d !! c = Some entry /\
        In f required_fields /\ contains entry f = Ok false /\
        r = Ok false /\ tr = [Print ("Missing field " ++ f ++ " for " ++ c)]) \/
     (exists d c entry f e,
        data = VDict d /\ In c expected_ids /\ d !! c = Some entry /\
        In f required_fields /\ contains entry f = Raise e /\
        r = Raise e /\ tr = [])).
Proof.
  destruct data as [| | | | | |d];
    try (exists (Ok false), []; split; [intros; by rewrite record_nil|];
         right; left; split; [done|]; split; [done|]; intros d; discriminate).
  destruct (check_ids_report d expected_ids)
    as [[Hfound Hrun]|[[c [Hc [Hd Hrun]]]|
        [[c [entry [f [Hc [Hd [Hf [Hbad Hrun]]]]]]]|
         [c [entry [f [e [Hc [Hd [Hf [Hbad Hrun]]]]]]]]]]].
  - exists (Ok true), []. split.
    + intros self w. rewrite validate_price_data_loop. unfold and_then.
      by rewrite bind_run, Hrun, record_nil.
    + left. eauto.
  - exists (Ok false), [Print ("Missing data for " ++ c)]. split.
    + intros self w. rewrite validate_price_data_loop. unfold and_then.
      by rewrite bind_run, Hrun.
    + right; right; left. exists d, c. eauto.
  - exists (Ok false), [Print ("Missing field " ++ f ++ " for " ++ c)]. split.
    + intros self w. rewrite validate_price_data_loop. unfold and_then.
      by rewrite bind_run, Hrun.
    + right; right; right; left. exists d, c, entry, f. eauto 10.
  - exists (Raise e), []. split.
    + intros self w. rewrite validate_price_data_loop. unfold and_then.
      by rewrite bind_run, Hrun, record_nil.
    + right; right; right; right. exists d, c, entry, f, e. eauto 10.
Qed.

(** ** [fetch_crypto_prices] *)

Section Prices.

Variable self : t.
Variable crypto_ids : list string.

(** The method, one step after the other. *)
Lemma fetch_crypto_prices_run w :
  fetch_crypto_prices self crypto_ids w =
  match fetch_with_retry self prices_url (Some (prices_params crypto_ids))
          (record [announce crypto_ids] w) with
  | (Raise e, w1) => (Raise e, w1)
  | (Ok None, w1) => (Ok None, w1)
  | (Ok (Some r), w1) =>
      if ok r then
        match json_body r with
        | NotJSON msg =>
            (Ok None, record [Print ("Failed to parse JSON response: " ++ msg)] w1)
        | DecoderFault name msg => (Raise (OtherError name msg), w1)
        | Decoded data =>
            match validate_price_data self data crypto_ids w1 with
            | (Ok true, w2) => (Ok (Some data), w2)
            | (Ok false, w2) =>
                (Ok None, record [Print "Invalid or incomplete price data received"] w2)
            | (Raise e, w2) =>
                if is_json_decode_error e
                then (Ok None, record [Print ("Failed to parse JSON response: " ++ exn_str e)] w2)
                else (Raise e, w2)
            end
        end
      else (Ok None, w1)
  end.
Proof.
  unfold fetch_crypto_prices, and_then, print, emit. rewrite !bind_run.
  unfold announce.
  destruct (fetch_with_retry _ _ _ _) as [[[r|]|e] w1]; try reflexivity.
  rewrite bind_run. unfold response_truthy.
  destruct (ok r); [|reflexivity].
  unfold try_except, json. rewrite bind_run.
  destruct (json_body r) as [data|msg|name msg]; [|reflexivity|reflexivity].
  rewrite ret_run, bind_run.
  destruct (validate_price_data self data crypto_ids w1) as [[[|]|e] w2]; try reflexivity.
  destruct (is_json_decode_error e); reflexivity.
Qed.

(** [validate_price_data] leaves the world alone when it accepts. *)
Lemma validate_price_data_accepts_silently data w :
  (validate_price_data self data crypto_ids w).1 = Ok true ->
  validate_price_data self data crypto_ids w = (Ok true, w).
Proof.
  destruct data as [| | | | | |d]; try discriminate.
  rewrite validate_price_data_loop. unfold and_then. rewrite bind_run.
  destruct (check_ids_cases d crypto_ids) as [[_ Hrun]|[_ [[line Hrun]|[e Hrun]]]];
    rewrite Hrun; [reflexivity|discriminate|discriminate].
Qed.

End Prices.

(** The three cases in which the method gives up with [None]: the
    transport gave up; decoding the body raised [JSONDecodeError]; the
    decoded payload was rejected by [validate_price_data] with [False]. *)
Lemma fetch_crypto_prices_none (self : t) (crypto_ids : list string) (w w1 : world) :
  (fetch_with_retry self prices_url (Some (prices_params crypto_ids))
     (record [announce crypto_ids] w) = (Ok None, w1) \/
   exists resp,
     fetch_with_retry self prices_url (Some (prices_params crypto_ids))
       (record [announce crypto_ids] w) = (Ok (Some resp), w1) /\
     ((exists msg, json_body resp = NotJSON msg) \/
      exists data, json_body resp = Decoded data /\
                   (validate_price_data self data crypto_ids w1).1 = Ok false)) ->
  (fetch_crypto_prices self crypto_ids w).1 = Ok None.
Proof.
  rewrite fetch_crypto_prices_run.
  intros [Hfetch|[resp [Hfetch [[msg Hjson]|[data [Hjson Hvalid]]]]]]; rewrite Hfetch.
  - reflexivity.
  - destruct (ok resp); [by rewrite Hjson|reflexivity].
  - destruct (ok resp); [rewrite Hjson|reflexivity].
    destruct (validate_price_data self data crypto_ids w1) as [[[|]|e] w2];
      simpl in Hvalid; try discriminate. reflexivity.
Qed.

(** C5.  With the transport succeeding and the body decoding to
    [{"bitcoin": 1}], a payload that violates the schema for the
    requested id [bitcoin], [fetch_crypto_prices] does not return [None]:
    the [TypeError] that [validate_price_data] raises is not a
    [JSONDecodeError], the handler of the method lets it through, and
    the caller gets an exception. *)
Theorem fetch_crypto_prices_raises_on_number_entry :
  (fetch_crypto_prices Fixtures.fetcher ["bitcoin"]
     (Fixtures.world_serving (Fixtures.ok_response Payloads.number_entry))).1
    = Raise (TypeError "argument of type 'int' is not iterable") /\
  ~ valid_payload Payloads.number_entry ["bitcoin"].
Proof.
  split; [vm_compute; reflexivity|].
  intros [d [Hd Hvalid]]. inversion Hd; subst d.
  destruct (Hvalid "bitcoin") as [entry [Hentry [fields [Hfields _]]]]; [by left|].
  vm_compute in Hentry. inversion Hentry; subst entry. discriminate.
Qed.

(** C6.  Round trip: when the transport delivers a response, its body
    decodes to [data] and [validate_price_data] accepts [data] for the
    requested ids, [fetch_crypto_prices] returns [data] itself, and adds
    nothing to what the transport left in the world.  (The list of ids
    need not even be non-empty.) *)
Theorem fetch_crypto_prices_round_trip (self : t) (crypto_ids : list string) (w w1 : world)
    (resp : Response) (data : value) :
  fetch_with_retry self prices_url (Some (prices_params crypto_ids)) (record [announce crypto_ids] w)
    = (Ok (Some resp), w1) ->
  json_body resp = Decoded data ->
  (validate_price_data self data crypto_ids w1).1 = Ok true ->
  fetch_crypto_prices self crypto_ids w = (Ok (Some data), w1).
Proof.
  intros Hfetch Hjson Hvalid. rewrite fetch_crypto_prices_run, Hfetch.
  rewrite (fetch_with_retry_returns_ok _ _ _ _ _ _ Hfetch), Hjson.
  by rewrite (validate_price_data_accepts_silently self crypto_ids data w1 Hvalid).
Qed.

Lemma fetch_crypto_prices_round_trip_witness :
  exists w1,
    fetch_crypto_prices Fixtures.fetcher ["bitcoin"] (Fixtures.world_flaky Payloads.complete)
      = (Ok (Some Payloads.complete), w1).
Proof.
  eexists.
  apply (fetch_crypto_prices_round_trip Fixtures.fetcher ["bitcoin"]
           (Fixtures.world_flaky Payloads.complete) _
           (Fixtures.ok_response Payloads.complete) Payloads.complete).
  - vm_compute. reflexivity.
  - reflexivity.
  - vm_compute. reflexivity.
Defined.

(** ** [fetch_additional_market_data] *)

Section Market.

Variable hashable_slices : bool.
Variable ucd : unicode.
Variable self : t.
Variable crypto_symbol : string.

Lemma fetch_additional_market_data_run w :
  fetch_additional_market_data hashable_slices ucd self crypto_symbol w =
  match fetch_with_retry self (coin_url ucd crypto_symbol) None w with
  | (Raise e, w1) => (Raise e, w1)
  | (Ok None, w1) => (Ok None, w1)
  | (Ok (Some r), w1) =>
      if ok r then
        match json_body r with
        | NotJSON msg =>
            (Ok None,
             record [Print ("Failed to parse additional data for " ++ crypto_symbol ++ ": " ++
                            msg)] w1)
        | DecoderFault name msg => (Raise (OtherError name msg), w1)
        | Decoded data =>
            match market_summary hashable_slices ucd data w1 with
            | (Ok summary, w2) => (Ok (Some summary), w2)
            | (Raise e, w2) =>
                if is_json_decode_or_key_error e
                then (Ok None,
                      record [Print ("Failed to parse additional data for " ++ crypto_symbol
                                     ++ ": " ++ exn_str e)] w2)
                else (Raise e, w2)
            end
        end
      else (Ok None, w1)
  end.
Proof.
  unfold fetch_additional_market_data, and_then. rewrite !bind_run.
  destruct (fetch_with_retry _ _ _ _) as [[[r|]|e] w1]; try reflexivity.
  unfold response_truthy.
  destruct (ok r); [|reflexivity].
  unfold try_except, json. rewrite bind_run.
  destruct (json_body r) as [data|msg|name msg]; [|reflexivity|reflexivity].
  rewrite bind_run, ret_run, bind_run.
  destruct (market_summary hashable_slices ucd data w1) as [[summary|e] w2]; [reflexivity|].
  destruct (is_json_decode_or_key_error e); reflexivity.
Qed.

(** On a well-formed entry without English text the dictionary is built,
    with the fallback description. *)
Lemma market_summary_fallback (d : gmap string value) w :
  symbol_is_text d ->
  no_english_text d ->
  exists name symbol,
    market_summary hashable_slices ucd (VDict d) w =
    (Ok (<["name" := name]>
         (<["symbol" := VStr symbol]> {["description" := VStr "No description available"]})), w).
Proof.
  intros Hsym Hdesc. unfold market_summary. cbn [get].
  assert (exists s, default (VStr EmptyString) (d !! "symbol") = VStr s) as [s Hs].
  { destruct Hsym as [->|[s ->]]; eauto. }
  rewrite lift_ok_bind, lift_ok_bind, Hs. cbn [upper]. rewrite lift_ok_bind, lift_ok_bind.
  assert (Hen : get (default (VDict ∅) (d !! "description")) "en" VNone = Ok VNone \/
                exists en, get (default (VDict ∅) (d !! "description")) "en" VNone = Ok en /\
                           truthy en = false).
  { destruct Hdesc as [->|[m [-> Hen]]]; cbn [default get].
    - left. by rewrite lookup_empty.
    - right. eauto. }
  destruct Hen as [->|[en [-> Hen]]]; rewrite lift_ok_bind; [cbn [truthy]|rewrite Hen];
    rewrite bind_run, ret_run, ret_run; eauto.
Qed.

Lemma fetch_additional_market_data_fallback (d : gmap string value) resp w w1 :
  fetch_with_retry self (coin_url ucd crypto_symbol) None w = (Ok (Some resp), w1) ->
  json_body resp = Decoded (VDict d) ->
  symbol_is_text d ->
  no_english_text d ->
  exists summary,
    fetch_additional_market_data hashable_slices ucd self crypto_symbol w = (Ok (Some summary), w1) /\
    summary !! "description" = Some (VStr "No description available").
Proof.
  intros Hfetch Hjson Hsym Hdesc.
  destruct (market_summary_fallback d w1 Hsym Hdesc) as [name [symbol Hrun]].
  rewrite fetch_additional_market_data_run, Hfetch.
  rewrite (fetch_with_retry_returns_ok _ _ _ _ _ _ Hfetch), Hjson, Hrun.
  eexists. split; [reflexivity|].
  rewrite !lookup_insert_ne by done. apply lookup_singleton_eq.
Qed.

End Market.

(** C9.  With the transport succeeding and the body decoding to
    [{"name": "Bitcoin", "symbol": null}], which has no description, the
    method neither returns a dictionary with the fallback description nor
    [None]: [None.upper()] raises [AttributeError], which the clause
    [except (json.JSONDecodeError, KeyError)] does not handle.  The same
    happens for [{..., "description": null}], on [None.get('en')]. *)
Theorem fetch_additional_market_data_raises (hashable_slices : bool) (ucd : unicode) :
  (fetch_additional_market_data hashable_slices ucd Fixtures.fetcher "bitcoin"
     (Fixtures.world_serving (Fixtures.ok_response Coins.null_symbol))).1
    = Raise (AttributeError "'NoneType' object has no attribute 'upper'") /\
  (fetch_additional_market_data hashable_slices ucd Fixtures.fetcher "bitcoin"
     (Fixtures.world_serving (Fixtures.ok_response Coins.null_description))).1
    = Raise (AttributeError "'NoneType' object has no attribute 'get'").
Proof. split; vm_compute; reflexivity. Qed.

(** On well-formed entries the fallback is what the specification says. *)
Lemma fetch_additional_market_data_samples (hashable_slices : bool) (ucd : unicode) :
  (exists summary,
     (fetch_additional_market_data hashable_slices ucd Fixtures.fetcher "bitcoin"
        (Fixtures.world_serving (Fixtures.ok_response Coins.no_description))).1
       = Ok (Some summary) /\
     summary !! "description" = Some (VStr "No description available")) /\
  (exists summary,
     (fetch_additional_market_data hashable_slices ucd Fixtures.fetcher "bitcoin"
        (Fixtures.world_serving (Fixtures.ok_response Coins.empty_description))).1
       = Ok (Some summary) /\
     summary !! "description" = Some (VStr "No description available")).
Proof.
  split.
  - destruct (fetch_additional_market_data_fallback hashable_slices ucd Fixtures.fetcher "bitcoin"
                (<["name" := VStr "Bitcoin"]> {["symbol" := VStr "btc"]})
                (Fixtures.ok_response Coins.no_description)
                (Fixtures.world_serving (Fixtures.ok_response Coins.no_description))
                (record [Get (request_of Fixtures.fetcher (coin_url ucd "bitcoin") None)]
                   (Fixtures.world_serving (Fixtures.ok_response Coins.no_description))))
      as [summary [Hrun Hdesc]].
    + vm_compute. reflexivity.
    + reflexivity.
    + right. exists "btc". vm_compute. reflexivity.
    + left. vm_compute. reflexivity.
    + exists summary. by rewrite Hrun.
  - destruct (fetch_additional_market_data_fallback hashable_slices ucd Fixtures.fetcher "bitcoin"
                (<["name" := VStr "Bitcoin"]>
                 (<["symbol" := VStr "btc"]> {["description" := VDict {["en" := VStr EmptyString]}]}))
                (Fixtures.ok_response Coins.empty_description)
                (Fixtures.world_serving (Fixtures.ok_response Coins.empty_description))
                (record [Get (request_of Fixtures.fetcher (coin_url ucd "bitcoin") None)]
                   (Fixtures.world_serving (Fixtures.ok_response Coins.empty_description))))
      as [summary [Hrun Hdesc]].
    + vm_compute. reflexivity.
    + reflexivity.
    + right. exists "btc". vm_compute. reflexivity.
    + right. exists {["en" := VStr EmptyString]}. split; vm_compute; reflexivity.
    + exists summary. by rewrite Hrun.
Qed.

(** ** [fetch_with_retry]: every outcome of a call *)

Section Outcome.

Variable self : t.
Variable url : string.
Variable params : option (gmap string string).

Let req := request_of self url params.

Lemma retryable_dec (o : result Response) : {retryable o} + {~ retryable o}.
Proof.
  destruct o as [resp|e]; simpl.
  - destruct (ok resp); [right; discriminate|left; reflexivity].
  - destruct (is_request_exception e); [left; reflexivity|right; discriminate].
Qed.

(** An answer that is not a retryable failure ends the call: it is a
    response that passes [raise_for_status], or an exception the handler
    does not name. *)
Lemma not_retryable_cases (o : result Response) :
  ~ retryable o ->
  (exists resp, o = Ok resp /\ ok resp = true) \/
  (exists e, o = Raise e /\ is_request_exception e = false).
Proof.
  destruct o as [resp|e]; simpl; intros Hnot.
  - left. exists resp. split; [done|]. by destruct (ok resp).
  - right. exists e. split; [done|]. by destruct (is_request_exception e).
Qed.

(** Among the first [n] answers, either all are retryable failures or
    there is a first one that is not. *)
Lemma first_stop (answer : nat -> result Response) (n : nat) :
  (forall j, (j < n)%nat -> retryable (answer j)) \/
  (exists k, (k < n)%nat /\ (forall j, (j < k)%nat -> retryable (answer j)) /\
             ~ retryable (answer k)).
Proof.
  induction n as [|n IH].
  - left. intros j Hj. lia.
  - destruct IH as [Hall|[k [Hk [Hpre Hstop]]]].
    + destruct (retryable_dec (answer n)) as [Hn|Hn].
      * left. intros j Hj. destruct (decide (j = n)) as [->|Hne]; [done|]. apply Hall. lia.
      * right. exists n. split; [lia|]. split; [done|done].
    + right. exists k. split; [lia|]. split; [done|done].
Qed.

Lemma flat_map_agree {A B} (f g : A -> list B) (l : list A) :
  (forall a, In a l -> f a = g a) -> flat_map f l = flat_map g l.
Proof.
  induction l as [|a l IH]; intros Hfg; simpl; [done|].
  rewrite Hfg by (by left). f_equal. apply IH. intros b Hb. apply Hfg. by right.
Qed.

Lemma backoff_schedule_succ (k : nat) :
  backoff_schedule req (Z.of_nat (S k)) =
  (flat_map (fun i => [Get req; Sleep (2 ^ i)]) (range (Z.of_nat k)) ++ [Get req])%list.
Proof.
  unfold backoff_schedule. rewrite range_succ, flat_map_app. cbn [flat_map].
  replace (Z.of_nat k <? Z.of_nat (S k) - 1) with false
    by (symmetry; apply Z.ltb_ge; lia).
  rewrite app_nil_r. f_equal. apply flat_map_agree. intros i Hi. apply range_bound in Hi.
  by replace (i <? Z.of_nat (S k) - 1) with true
    by (symmetry; apply Z.ltb_lt; lia).
Qed.

Lemma backoff_schedule_to_nat (n : Z) :
  backoff_schedule req n = backoff_schedule req (Z.of_nat (Z.to_nat n)).
Proof.
  destruct (Z_le_gt_dec n 0) as [Hn|Hn].
  - unfold backoff_schedule. rewrite (range_nonpos n Hn).
    replace (Z.to_nat n) with 0%nat by lia. reflexivity.
  - by replace (Z.of_nat (Z.to_nat n)) with n by lia.
Qed.

(** The loop up to attempt [k], all of whose predecessors fail. *)
Lemma loop_prefix (k : nat) w :
  Z.of_nat k < max_retries self ->
  (forall j, (j < k)%nat -> retryable (network w (length (gets (log w)) + j)%nat req)) ->
  exists tr rest,
    range (max_retries self) = (range (Z.of_nat k) ++ Z.of_nat k :: rest)%list /\
    for_each (range (Z.of_nat k)) (attempt self url params) w = (Ok Next, record tr w) /\
    gets tr = replicate k req /\
    io_events tr = flat_map (fun i => [Get req; Sleep (2 ^ i)]) (range (Z.of_nat k)).
Proof.
  intros Hk Hfail.
  destruct (range_split k (max_retries self) Hk) as [rest Hsplit].
  destruct (loop_all_retryable self url params (range (Z.of_nat k)) w) as [tr [Hrun Hio]].
  { intros j Hj. rewrite length_range, Nat2Z.id in Hj. by apply Hfail. }
  fold req in Hio.
  assert (Hio' : io_events tr = flat_map (fun i => [Get req; Sleep (2 ^ i)]) (range (Z.of_nat k))).
  { rewrite Hio. apply flat_map_agree. intros i Hi. apply range_bound in Hi.
    by replace (i <? max_retries self - 1) with true by (symmetry; apply Z.ltb_lt; lia). }
  exists tr, rest. split; [done|]. split; [done|]. split; [|done].
  rewrite <- gets_io_events, Hio'.
  rewrite (gets_flat_map req (fun i => [Sleep (2 ^ i)])) by done.
  by rewrite length_range, Nat2Z.id.
Qed.

(** The three outcomes of a call, each with what decides it and with the
    requests and sleeps it leaves in the log. *)
Lemma fetch_with_retry_outcome w :
  ((forall j, (j < Z.to_nat (max_retries self))%nat ->
      retryable (network w (length (gets (log w)) + j)%nat req)) /\
   exists tr,
     fetch_with_retry self url params w = (Ok None, record tr w) /\
     io_events tr = backoff_schedule req (max_retries self)) \/
  (exists k, (k < Z.to_nat (max_retries self))%nat /\
     (forall j, (j < k)%nat -> retryable (network w (length (gets (log w)) + j)%nat req)) /\
     ((exists resp tr,
         network w (length (gets (log w)) + k)%nat req = Ok resp /\ ok resp = true /\
         fetch_with_retry self url params w = (Ok (Some resp), record tr w) /\
         io_events tr = backoff_schedule req (Z.of_nat (S k))) \/
      (exists e tr,
         network w (length (gets (log w)) + k)%nat req = Raise e /\
         is_request_exception e = false /\
         fetch_with_retry self url params w = (Raise e, record tr w) /\
         io_events tr = backoff_schedule req (Z.of_nat (S k))))).
Proof.
  destruct (first_stop (fun j => network w (length (gets (log w)) + j)%nat req)
              (Z.to_nat (max_retries self))) as [Hall|[k [Hk [Hpre Hstop]]]].
  - left. split; [done|].
    destruct (loop_all_retryable self url params (range (max_retries self)) w) as [tr [Hrun Hio]].
    { intros j Hj. rewrite length_range in Hj. by apply Hall. }
    exists tr. split; [|exact Hio].
    rewrite fetch_with_retry_loop. unfold and_then. by rewrite bind_run, Hrun.
  - right. exists k. split; [done|]. split; [done|].
    destruct (loop_prefix k w) as [tr [rest [Hsplit [Hrun [Hgets Hio]]]]]; [lia|done|].
    assert (Hnext : length (gets (log (record tr w))) = (length (gets (log w)) + k)%nat).
    { by rewrite log_record, gets_app, length_app, Hgets, length_replicate. }
    destruct (not_retryable_cases _ Hstop) as [[resp [Hnet Hok]]|[e [Hnet He]]].
    + left. exists resp, (tr ++ [Get req])%list. split; [done|]. split; [done|]. split.
      * rewrite fetch_with_retry_loop. unfold and_then. rewrite bind_run, Hsplit.
        rewrite (for_each_app _ _ _ _ _ Hrun). cbn [for_each]. rewrite bind_run.
        rewrite (attempt_success self url params (Z.of_nat k) (record tr w) resp),
          ?record_record; [done| |done].
        rewrite network_record, Hnext. exact Hnet.
      * by rewrite io_events_app, Hio, backoff_schedule_succ.
    + right. exists e, (tr ++ [Get req])%list. split; [done|]. split; [done|]. split.
      * rewrite fetch_with_retry_loop. unfold and_then. rewrite bind_run, Hsplit.
        rewrite (for_each_app _ _ _ _ _ Hrun). cbn [for_each]. rewrite bind_run.
        rewrite (attempt_unexpected self url params (Z.of_nat k) (record tr w) e),
          ?record_record; [done| |done].
        rewrite network_record, Hnext. exact Hnet.
      * by rewrite io_events_app, Hio, backoff_schedule_succ.
Qed.

End Outcome.

Section OutcomeFacts.

Variable self : t.
Variable url : string.
Variable params : option (gmap string string).

(** The first answer that is not a retryable failure is unique. *)
Lemma first_stop_unique (answer : nat -> result Response) (k k' : nat) :
  (forall j, (j < k)%nat -> retryable (answer j)) -> ~ retryable (answer k) ->
  (forall j, (j < k')%nat -> retryable (answer j)) -> ~ retryable (answer k') ->
  k = k'.
Proof.
  intros Hpre Hstop Hpre' Hstop'.
  destruct (lt_eq_lt_dec k k') as [[Hlt|Heq]|Hgt]; [|done|].
  - destruct Hstop. by apply Hpre'.
  - destruct Hstop'. by apply Hpre.
Qed.

Lemma success_not_retryable (resp : Response) : ok resp = true -> ~ retryable (Ok resp).
Proof. simpl. intros ->. discriminate. Qed.

Lemma unexpected_not_retryable (e : exn) :
  is_request_exception e = false -> ~ retryable (@Raise Response e).
Proof. simpl. intros ->. discriminate. Qed.

Lemma sum_pow2_to_nat (n : Z) : sum_pow2 n = 2 ^ Z.of_nat (Z.to_nat n) - 1.
Proof.
  rewrite <- sum_pow2_closed. unfold sum_pow2, range. by rewrite Nat2Z.id.
Qed.

Lemma sum_pow2_mono (a b : Z) :
  (Z.to_nat a <= Z.to_nat b)%nat -> 0 <= sum_pow2 a <= sum_pow2 b.
Proof.
  intros Hab. rewrite !sum_pow2_to_nat.
  assert (0 < 2 ^ Z.of_nat (Z.to_nat a)) by (apply Z.pow_pos_nonneg; lia).
  assert (2 ^ Z.of_nat (Z.to_nat a) <= 2 ^ Z.of_nat (Z.to_nat b))
    by (apply Z.pow_le_mono_r; lia).
  lia.
Qed.

End OutcomeFacts.

(** X1.  Whatever the network answers, a call of [fetch_with_retry] sends
    at most [max_retries] requests, all of them the same request, and its
    requests and sleeps alternate as Get, Sleep 1, Get, Sleep 2, ..., Get:
    it sleeps only between two requests, [2 ^ i] seconds after request
    [i], never before the first request nor after the last. *)
Theorem fetch_with_retry_schedule (self : t) (url : string)
    (params : option (gmap string string)) (w : world) :
  exists (n : nat) (tr : list event),
    (n <= Z.to_nat (max_retries self))%nat /\
    (fetch_with_retry self url params w).2 = record tr w /\
    gets tr = replicate n (request_of self url params) /\
    io_events tr = backoff_schedule (request_of self url params) (Z.of_nat n).
Proof.
  destruct (fetch_with_retry_outcome self url params w)
    as [[_ [tr [Hrun Hio]]]|[k [Hk [_ [[resp [tr [_ [_ [Hrun Hio]]]]]|[e [tr [_ [_ [Hrun Hio]]]]]]]]]].
  - exists (Z.to_nat (max_retries self)), tr. split; [lia|]. split; [by rewrite Hrun|].
    rewrite backoff_schedule_to_nat in Hio. split; [|done].
    by rewrite <- gets_io_events, Hio, gets_backoff_schedule, Nat2Z.id.
  - exists (S k), tr. split; [lia|]. split; [by rewrite Hrun|]. split; [|done].
    by rewrite <- gets_io_events, Hio, gets_backoff_schedule, Nat2Z.id.
  - exists (S k), tr. split; [lia|]. split; [by rewrite Hrun|]. split; [|done].
    by rewrite <- gets_io_events, Hio, gets_backoff_schedule, Nat2Z.id.
Qed.

(** X2.  Whatever the network answers, the time a call of
    [fetch_with_retry] sleeps is at most
    [sum(2 ** i for i in range(max_retries - 1))], that is
    [2 ** (max_retries - 1) - 1] seconds for a positive [max_retries]. *)
Theorem fetch_with_retry_sleep_bound (self : t) (url : string)
    (params : option (gmap string string)) (w : world) :
  exists tr : list event,
    (fetch_with_retry self url params w).2 = record tr w /\
    0 <= total_slept tr <= sum_pow2 (max_retries self - 1) /\
    sum_pow2 (max_retries self - 1) = 2 ^ (Z.max 1 (max_retries self) - 1) - 1.
Proof.
  assert (Hbound : forall (n : nat) tr,
    (n <= Z.to_nat (max_retries self))%nat ->
    io_events tr = backoff_schedule (request_of self url params) (Z.of_nat n) ->
    0 <= total_slept tr <= sum_pow2 (max_retries self - 1)).
  { intros n tr Hn Hio. unfold total_slept.
    rewrite <- sleeps_io_events, Hio, sleeps_backoff_schedule.
    fold (sum_pow2 (Z.of_nat n - 1)). apply sum_pow2_mono. lia. }
  assert (Hclosed : sum_pow2 (max_retries self - 1) = 2 ^ (Z.max 1 (max_retries self) - 1) - 1).
  { rewrite sum_pow2_to_nat. do 2 f_equal. lia. }
  destruct (fetch_with_retry_outcome self url params w)
    as [[_ [tr [Hrun Hio]]]|[k [Hk [_ [[resp [tr [_ [_ [Hrun Hio]]]]]|[e [tr [_ [_ [Hrun Hio]]]]]]]]]];
    exists tr; (split; [by rewrite Hrun|]); (split; [|exact Hclosed]).
  - rewrite backoff_schedule_to_nat in Hio. by apply (Hbound (Z.to_nat (max_retries self))).
  - apply (Hbound (S k)); [lia|done].
  - apply (Hbound (S k)); [lia|done].
Qed.

(** X3.  [fetch_with_retry] returns [None] exactly when each of its
    [max_retries] attempts is a retryable failure: the failure signal
    comes only after all attempts are used up (and at once when
    [max_retries] is not positive). *)
Theorem fetch_with_retry_none_iff (self : t) (url : string)
    (params : option (gmap string string)) (w : world) :
  (fetch_with_retry self url params w).1 = Ok None <->
  (forall j, (j < Z.to_nat (max_retries self))%nat ->
     retryable (network w (length (gets (log w)) + j)%nat (request_of self url params))).
Proof.
  destruct (fetch_with_retry_outcome self url params w)
    as [[Hall [tr [Hrun _]]]|[k [Hk [_ [[resp [tr [Hnet [Hok [Hrun _]]]]]|[e [tr [Hnet [He [Hrun _]]]]]]]]]];
    rewrite Hrun; simpl.
  - split; [done|done].
  - split; [discriminate|]. intros Hall. specialize (Hall k Hk).
    rewrite Hnet in Hall. by destruct (success_not_retryable resp Hok).
  - split; [discriminate|]. intros Hall. specialize (Hall k Hk).
    rewrite Hnet in Hall. by destruct (unexpected_not_retryable e He).
Qed.

(** X4.  [fetch_with_retry] returns a response exactly when that response
    answers some attempt [k < max_retries], passes [raise_for_status],
    and every earlier attempt is a retryable failure: the response
    returned is the first successful one. *)
Theorem fetch_with_retry_some_iff (self : t) (url : string)
    (params : option (gmap string string)) (w : world) (resp : Response) :
  (fetch_with_retry self url params w).1 = Ok (Some resp) <->
  (exists k, (k < Z.to_nat (max_retries self))%nat /\
     (forall j, (j < k)%nat ->
        retryable (network w (length (gets (log w)) + j)%nat (request_of self url params))) /\
     network w (length (gets (log w)) + k)%nat (request_of self url params) = Ok resp /\
     ok resp = true).
Proof.
  set (answer := fun j => network w (length (gets (log w)) + j)%nat (request_of self url params)).
  destruct (fetch_with_retry_outcome self url params w)
    as [[Hall [tr [Hrun _]]]|[k [Hk [Hpre [[r [tr [Hnet [Hok [Hrun _]]]]]|[e [tr [Hnet [He [Hrun _]]]]]]]]]];
    rewrite Hrun; simpl.
  - split; [discriminate|]. intros [k [Hk [_ [Hnet Hok]]]].
    specialize (Hall k Hk). rewrite Hnet in Hall. by destruct (success_not_retryable resp Hok).
  - split.
    + intros Heq. inversion Heq; subst r. exists k. eauto.
    + intros [k' [Hk' [Hpre' [Hnet' Hok']]]].
      assert (k = k') as <-.
      { apply (first_stop_unique answer); try done.
        - unfold answer. rewrite Hnet. by apply success_not_retryable.
        - unfold answer. rewrite Hnet'. by apply success_not_retryable. }
      rewrite Hnet in Hnet'. by inversion Hnet'.
  - split; [discriminate|]. intros [k' [Hk' [Hpre' [Hnet' Hok']]]].
    assert (k = k') as <-.
    { apply (first_stop_unique answer); try done.
      - unfold answer. rewrite Hnet. by apply unexpected_not_retryable.
      - unfold answer. rewrite Hnet'. by apply success_not_retryable. }
    rewrite Hnet in Hnet'. discriminate.
Qed.

(** X5.  [fetch_with_retry] raises [e] exactly when [e] is raised by the
    transport at some attempt [k < max_retries], is no
    [RequestException], and every earlier attempt is a retryable
    failure: such an exception is not retried, and no exception of the
    [RequestException] hierarchy ever leaves the method. *)
Theorem fetch_with_retry_raise_iff (self : t) (url : string)
    (params : option (gmap string string)) (w : world) (e : exn) :
  (fetch_with_retry self url params w).1 = Raise e <->
  (exists k, (k < Z.to_nat (max_retries self))%nat /\
     (forall j, (j < k)%nat ->
        retryable (network w (length (gets (log w)) + j)%nat (request_of self url params))) /\
     network w (length (gets (log w)) + k)%nat (request_of self url params) = Raise e /\
     is_request_exception e = false).
Proof.
  set (answer := fun j => network w (length (gets (log w)) + j)%nat (request_of self url params)).
  destruct (fetch_with_retry_outcome self url params w)
    as [[Hall [tr [Hrun _]]]|[k [Hk [Hpre [[r [tr [Hnet [Hok [Hrun _]]]]]|[e' [tr [Hnet [He [Hrun _]]]]]]]]]];
    rewrite Hrun; simpl.
  - split; [discriminate|]. intros [k [Hk [_ [Hnet He]]]].
    specialize (Hall k Hk). rewrite Hnet in Hall. by destruct (unexpected_not_retryable e He).
  - split; [discriminate|]. intros [k' [Hk' [Hpre' [Hnet' He']]]].
    assert (k = k') as <-.
    { apply (first_stop_unique answer); try done.
      - unfold answer. rewrite Hnet. by apply success_not_retryable.
      - unfold answer. rewrite Hnet'. by apply unexpected_not_retryable. }
    rewrite Hnet in Hnet'. discriminate.
  - split.
    + intros Heq. inversion Heq; subst e'. exists k. eauto.
    + intros [k' [Hk' [Hpre' [Hnet' He'']]]].
      assert (k = k') as <-.
      { apply (first_stop_unique answer); try done.
        - unfold answer. rewrite Hnet. by apply unexpected_not_retryable.
        - unfold answer. rewrite Hnet'. by apply unexpected_not_retryable. }
      rewrite Hnet in Hnet'. by inversion Hnet'.
Qed.

(** ** [validate_price_data]: what it accepts, rejects and reports *)

Section ValidateFacts.

Lemma contains_container (v : value) (key : string) :
  is_container v = true -> exists b, contains v key = Ok b.
Proof. destruct v; try discriminate; simpl; eauto. Qed.

Lemma contains_raise_inv (v : value) (key : string) (e : exn) :
  contains v key = Raise e ->
  is_container v = false /\
  e = TypeError ("argument of type '" ++ type_name v ++ "' is not iterable").
Proof. destruct v; simpl; intros Hc; try discriminate; by inversion Hc. Qed.

Lemma check_fields_raise_inv crypto_id entry (fields : list string) w e w' :
  for_each fields (check_field crypto_id entry) w = (Raise e, w') ->
  is_container entry = false /\
  e = TypeError ("argument of type '" ++ type_name entry ++ "' is not iterable").
Proof.
  revert w. induction fields as [|f fields IH]; intros w; cbn [for_each]; [discriminate|].
  rewrite bind_run, check_field_run.
  destruct (contains entry f) as [[|]|e0] eqn:Hf.
  - apply IH.
  - discriminate.
  - intros Hrun. inversion Hrun; subst. by apply (contains_raise_inv entry f).
Qed.

(** When the method raises, an expected id has an entry that is no
    container, and the exception is the [TypeError] of the membership
    test on it. *)
Lemma validate_price_data_raise_inv self data (expected_ids : list string) w e :
  (validate_price_data self data expected_ids w).1 = Raise e ->
  exists d crypto_id entry,
    data = VDict d /\ In crypto_id expected_ids /\ d !! crypto_id = Some entry /\
    is_container entry = false /\
    e = TypeError ("argument of type '" ++ type_name entry ++ "' is not iterable").
Proof.
  destruct data as [| | | | | |d]; try discriminate.
  rewrite validate_price_data_loop. unfold and_then. rewrite bind_run.
  revert w. induction expected_ids as [|c rest IH]; intros w; cbn [for_each]; [discriminate|].
  rewrite bind_run, check_id_run.
  destruct (d !! c) as [entry|] eqn:Hd; [|discriminate].
  destruct (for_each required_fields (check_field c entry) w) as [[[b|]|e0] w1] eqn:Hin.
  - discriminate.
  - intros Hrun. destruct (IH w1 Hrun) as [d' [c' [entry' [Hd' [Hc' H']]]]].
    exists d', c', entry'. split; [done|]. split; [by right|done].
  - simpl. intros Hrun. inversion Hrun; subst e0.
    destruct (check_fields_raise_inv _ _ _ _ _ _ Hin) as [Hcont He].
    exists d, c, entry. split; [done|]. split; [by left|done].
Qed.

(** The loop over ids that are all found runs to its end, silently. *)
Lemma check_ids_found d (expected_ids : list string) w :
  ids_found d expected_ids ->
  for_each expected_ids (check_id d) w = (Ok Next, w).
Proof.
  intros Hfound.
  destruct (check_ids_cases d expected_ids) as [[_ Hrun]|[Hnot _]]; [apply Hrun|contradiction].
Qed.

Lemma check_fields_first_missing crypto_id (fields : gmap string value)
    (before after : list string) (field : string) w :
  (forall g, In g before -> is_Some (fields !! g)) ->
  fields !! field = None ->
  for_each (before ++ field :: after)%list (check_field crypto_id (VDict fields)) w =
  (Ok (Return false), record [Print ("Missing field " ++ field ++ " for " ++ crypto_id)] w).
Proof.
  intros Hbefore Hfield. induction before as [|g before IH]; cbn [for_each app].
  - rewrite bind_run, check_field_run. cbn [contains]. rewrite Hfield.
    rewrite bool_decide_eq_false_2 by (intros [? ?]; discriminate). reflexivity.
  - rewrite bind_run, check_field_run. cbn [contains].
    rewrite bool_decide_eq_true_2 by (apply Hbefore; by left).
    apply IH. intros h Hh. apply Hbefore. by right.
Qed.

End ValidateFacts.

(** X6.  [validate_price_data] returns a boolean, raising nothing,
    whenever the entry of every expected id that the payload holds is a
    dictionary, a list or a string. *)
Theorem validate_price_data_returns_boolean (self : t) (d : gmap string value)
    (expected_ids : list string) (w : world) :
  (forall crypto_id entry, In crypto_id expected_ids -> d !! crypto_id = Some entry ->
     is_container entry = true) ->
  exists b : bool, (validate_price_data self (VDict d) expected_ids w).1 = Ok b.
Proof.
  intros Hcont.
  destruct (validate_price_data_total_on_containers self d expected_ids w) as [b [w' Hrun]].
  - intros c entry Hc Hentry field. apply contains_container. by apply (Hcont c).
  - exists b. by rewrite Hrun.
Qed.

Lemma validate_price_data_returns_boolean_witness :
  exists b : bool,
    (validate_price_data Fixtures.fetcher Payloads.text_entry ["bitcoin"] Fixtures.world_down).1
      = Ok b.
Proof.
  apply (validate_price_data_returns_boolean Fixtures.fetcher
           {["bitcoin" := VStr "usd_24h_change usd_market_cap"]} ["bitcoin"] Fixtures.world_down).
  intros c entry [<-|[]] Hentry. vm_compute in Hentry. by inversion Hentry.
Defined.

(** X7.  The only exception [validate_price_data] raises is [TypeError],
    and it raises it only when the payload is a dictionary in which the
    entry of some expected id is neither a dictionary, a list nor a string
    (a number, a boolean, [None]). *)
Theorem validate_price_data_raises_only_type_error (self : t) (data : value)
    (expected_ids : list string) (w : world) (e : exn) :
  (validate_price_data self data expected_ids w).1 = Raise e ->
  (exists msg, e = TypeError msg) /\
  exists d crypto_id entry,
    data = VDict d /\ In crypto_id expected_ids /\ d !! crypto_id = Some entry /\
    is_container entry = false.
Proof.
  intros Hraise.
  destruct (validate_price_data_raise_inv self data expected_ids w e Hraise)
    as [d [c [entry [Hd [Hc [Hentry [Hcont He]]]]]]].
  split; [eauto|]. exists d, c, entry. eauto.
Qed.

Lemma validate_price_data_raises_only_type_error_witness :
  (exists msg, TypeError "argument of type 'int' is not iterable" = TypeError msg) /\
  exists d crypto_id entry,
    Payloads.number_entry = VDict d /\ In crypto_id ["bitcoin"] /\ d !! crypto_id = Some entry /\
    is_container entry = false.
Proof.
  apply (validate_price_data_raises_only_type_error Fixtures.fetcher Payloads.number_entry
           ["bitcoin"] Fixtures.world_down).
  reflexivity.
Defined.

(** X8.  Acceptance depends on the set of expected ids only, and shrinks
    with it: a payload accepted for a list of ids is accepted for every
    list made of ids of that list, in any order and with repetitions. *)
Theorem validate_price_data_fewer_ids (self : t) (data : value)
    (ids1 ids2 : list string) (w : world) :
  (forall crypto_id, In crypto_id ids1 -> In crypto_id ids2) ->
  (validate_price_data self data ids2 w).1 = Ok true ->
  (validate_price_data self data ids1 w).1 = Ok true.
Proof.
  intros Hsub. rewrite !validate_price_data_true.
  intros [d [Hd Hfound]]. exists d. split; [done|].
  intros c Hc. apply Hfound. by apply Hsub.
Qed.

Lemma validate_price_data_fewer_ids_witness :
  (validate_price_data Fixtures.fetcher Payloads.complete ["bitcoin"; "bitcoin"]
     Fixtures.world_down).1 = Ok true.
Proof.
  apply (validate_price_data_fewer_ids Fixtures.fetcher Payloads.complete
           ["bitcoin"; "bitcoin"] ["bitcoin"] Fixtures.world_down).
  - intros c [<-|[<-|[]]]; by left.
  - reflexivity.
Defined.

(** X9.  Entries the caller did not ask for do not matter: a payload that
    is accepted stays accepted when more top-level keys are added to
    it. *)
Theorem validate_price_data_more_entries (self : t) (d d' : gmap string value)
    (expected_ids : list string) (w : world) :
  d ⊆ d' ->
  (validate_price_data self (VDict d) expected_ids w).1 = Ok true ->
  (validate_price_data self (VDict d') expected_ids w).1 = Ok true.
Proof.
  intros Hsub. rewrite !validate_price_data_true.
  intros [d0 [Hd Hfound]]. inversion Hd; subst d0. exists d'. split; [done|].
  intros c Hc. destruct (Hfound c Hc) as [entry [Hentry Hfields]].
  exists entry. split; [|done]. by apply (lookup_weaken d d').
Qed.

Lemma validate_price_data_more_entries_witness :
  (validate_price_data Fixtures.fetcher
     (VDict (<["dogecoin" := VInt 1]>
               {["bitcoin" := VDict (<["usd" := VInt 1]>
                   (<["usd_24h_change" := VInt 1]> {["usd_market_cap" := VInt 1]}))]}))
     ["bitcoin"] Fixtures.world_down).1 = Ok true.
Proof.
  apply (validate_price_data_more_entries Fixtures.fetcher
           {["bitcoin" := VDict (<["usd" := VInt 1]>
               (<["usd_24h_change" := VInt 1]> {["usd_market_cap" := VInt 1]}))]}).
  - apply insert_subseteq. vm_compute. reflexivity.
  - reflexivity.
Defined.

(** X10.  The method reports the first expected id that the payload
    lacks and looks no further: when the ids before [crypto_id] are
    accepted and [crypto_id] is no key of the payload, it prints
    [Missing data for crypto_id] and returns [False], whatever the ids
    after it and their entries are. *)
Theorem validate_price_data_first_missing_id (self : t) (d : gmap string value)
    (before after : list string) (crypto_id : string) (w : world) :
  (validate_price_data self (VDict d) before w).1 = Ok true ->
  d !! crypto_id = None ->
  validate_price_data self (VDict d) (before ++ crypto_id :: after)%list w =
  (Ok false, record [Print ("Missing data for " ++ crypto_id)] w).
Proof.
  rewrite validate_price_data_true. intros [d0 [Hd Hfound]] Hmissing.
  inversion Hd; subst d0.
  rewrite validate_price_data_loop. unfold and_then. rewrite bind_run.
  rewrite (for_each_app _ _ _ _ _ (check_ids_found d before w Hfound)).
  cbn [for_each]. rewrite bind_run, check_id_run, Hmissing. reflexivity.
Qed.

Lemma validate_price_data_first_missing_id_witness :
  validate_price_data Fixtures.fetcher Payloads.number_entry ["ethereum"; "bitcoin"]
    Fixtures.world_down =
  (Ok false, record [Print "Missing data for ethereum"] Fixtures.world_down).
Proof.
  apply (validate_price_data_first_missing_id Fixtures.fetcher {["bitcoin" := VInt 1]}
           [] ["bitcoin"] "ethereum" Fixtures.world_down).
  - reflexivity.
  - vm_compute. reflexivity.
Defined.

(** X11.  For an entry that is a dictionary the method reports the first
    required field, in the order [usd], [usd_24h_change],
    [usd_market_cap], that the entry lacks: when the ids before
    [crypto_id] are accepted, it prints [Missing field f for crypto_id]
    and returns [False]. *)
Theorem validate_price_data_first_missing_field (self : t) (d fields : gmap string value)
    (before after : list string) (crypto_id : string)
    (fields_before fields_after : list string) (field : string) (w : world) :
  (validate_price_data self (VDict d) before w).1 = Ok true ->
  d !! crypto_id = Some (VDict fields) ->
  required_fields = (fields_before ++ field :: fields_after)%list ->
  (forall g, In g fields_before -> is_Some (fields !! g)) ->
  fields !! field = None ->
  validate_price_data self (VDict d) (before ++ crypto_id :: after)%list w =
  (Ok false, record [Print ("Missing field " ++ field ++ " for " ++ crypto_id)] w).
Proof.
  rewrite validate_price_data_true. intros [d0 [Hd Hfound]] Hentry Hsplit Hpresent Hmissing.
  inversion Hd; subst d0.
  rewrite validate_price_data_loop. unfold and_then. rewrite bind_run.
  rewrite (for_each_app _ _ _ _ _ (check_ids_found d before w Hfound)).
  cbn [for_each]. rewrite bind_run, check_id_run, Hentry, Hsplit.
  by rewrite (check_fields_first_missing crypto_id fields fields_before fields_after field w).
Qed.

Lemma validate_price_data_first_missing_field_witness :
  validate_price_data Fixtures.fetcher Payloads.price_only ["bitcoin"] Fixtures.world_down =
  (Ok false, record [Print "Missing field usd_24h_change for bitcoin"] Fixtures.world_down).
Proof.
  apply (validate_price_data_first_missing_field Fixtures.fetcher
           {["bitcoin" := VDict {["usd" := VInt 1]}]} {["usd" := VInt 1]}
           [] [] "bitcoin" ["usd"] ["usd_market_cap"] "usd_24h_change" Fixtures.world_down).
  - reflexivity.
  - vm_compute. reflexivity.
  - reflexivity.
  - intros g [<-|[]]. vm_compute. eauto.
  - vm_compute. reflexivity.
Defined.

(** X15.  [validate_price_data_mapping_records] at the complete sample
    payload: on payloads whose entries for the expected ids are mappings,
    the method returns [True] exactly when every expected id is a key and
    its entry has the three required fields. *)
Lemma validate_price_data_mapping_records_witness :
  (validate_price_data Fixtures.fetcher Payloads.complete ["bitcoin"] Fixtures.world_down).1
    = Ok true <->
  valid_payload Payloads.complete ["bitcoin"].
Proof.
  apply (validate_price_data_mapping_records Fixtures.fetcher
           {["bitcoin" := VDict (<["usd" := VInt 1]>
               (<["usd_24h_change" := VInt 1]> {["usd_market_cap" := VInt 1]}))]}
           ["bitcoin"] Fixtures.world_down).
  intros c entry [<-|[]] Hentry. vm_compute in Hentry. inversion Hentry. eauto.
Defined.

(** ** [fetch_crypto_prices]: what it returns, raises and sends *)

Section PricesFacts.

Variable self : t.
Variable crypto_ids : list string.

(** [validate_price_data] only prints: it sends no request and does not
    sleep. *)
Lemma validate_price_data_prints_only data w :
  exists tr,
    (validate_price_data self data crypto_ids w).2 = record tr w /\
    gets tr = [] /\ sleeps tr = [].
Proof.
  destruct data as [| | | | | |d];
    try (exists []; simpl; by rewrite record_nil).
  rewrite validate_price_data_loop. unfold and_then. rewrite bind_run.
  destruct (check_ids_cases d crypto_ids) as [[_ Hrun]|[_ [[line Hrun]|[e Hrun]]]];
    rewrite Hrun.
  - exists []. simpl. by rewrite record_nil.
  - exists [Print line]. done.
  - exists []. simpl. by rewrite record_nil.
Qed.

(** A payload accepted for at least one id is not empty. *)
Lemma ids_found_truthy (d : gmap string value) :
  crypto_ids <> [] -> ids_found d crypto_ids -> truthy (VDict d) = true.
Proof.
  intros Hne Hfound. destruct crypto_ids as [|c rest]; [done|].
  destruct (Hfound c) as [entry [Hentry _]]; [by left|].
  simpl. rewrite bool_decide_eq_false_2; [done|].
  intros ->. by rewrite lookup_empty in Hentry.
Qed.

End PricesFacts.

(** X12.  Whatever [fetch_crypto_prices] returns other than [None] has
    been accepted by [validate_price_data] for the requested ids: no
    payload reaches the caller unvalidated.  When ids were requested, the
    payload returned is moreover not empty, so that the test
    [if price_data:] of the caller holds. *)
Theorem fetch_crypto_prices_returns_validated (self : t) (crypto_ids : list string)
    (w w' : world) (data : value) :
  fetch_crypto_prices self crypto_ids w = (Ok (Some data), w') ->
  (validate_price_data self data crypto_ids w').1 = Ok true /\
  (crypto_ids <> [] -> truthy data = true).
Proof.
  rewrite fetch_crypto_prices_run.
  destruct (fetch_with_retry _ _ _ _) as [[[r|]|e] w1]; try discriminate.
  destruct (ok r); [|discriminate].
  destruct (json_body r) as [data'|msg|name msg]; [|discriminate|discriminate].
  destruct (validate_price_data self data' crypto_ids w1) as [[[|]|e] w2] eqn:Hvalid;
    try discriminate; [|destruct (is_json_decode_error e); discriminate].
  intros Hrun. inversion Hrun; subst data' w2.
  assert (Haccept : (validate_price_data self data crypto_ids w1).1 = Ok true)
    by (by rewrite Hvalid).
  apply validate_price_data_true in Haccept as [d [-> Hfound]].
  split.
  - apply validate_price_data_true. eauto.
  - intros Hne. by apply (ids_found_truthy crypto_ids).
Qed.

Lemma fetch_crypto_prices_returns_validated_witness :
  (validate_price_data Fixtures.fetcher Payloads.complete ["bitcoin"]
     (fetch_crypto_prices Fixtures.fetcher ["bitcoin"]
        (Fixtures.world_flaky Payloads.complete)).2).1 = Ok true /\
  (["bitcoin"] <> [] -> truthy Payloads.complete = true).
Proof.
  apply (fetch_crypto_prices_returns_validated Fixtures.fetcher ["bitcoin"]
           (Fixtures.world_flaky Payloads.complete)).
  vm_compute. reflexivity.
Defined.

(** X13.  On a network that answers every request with a response or
    with a [RequestException], neither a [RequestException] nor a
    [JSONDecodeError] leaves [fetch_crypto_prices]: an exception that
    reaches the caller is the [TypeError] of [validate_price_data], or an
    exception other than [JSONDecodeError] that decoding the body let
    through. *)
Theorem fetch_crypto_prices_escaping_exceptions (self : t) (crypto_ids : list string)
    (w : world) (e : exn) :
  (forall k, expected (network w k
     (request_of self prices_url (Some (prices_params crypto_ids))))) ->
  (fetch_crypto_prices self crypto_ids w).1 = Raise e ->
  is_request_exception e = false /\
  is_json_decode_error e = false /\
  ((exists msg, e = TypeError msg) \/ (exists name msg, e = OtherError name msg)).
Proof.
  intros Hexp. rewrite fetch_crypto_prices_run.
  destruct (loop_expected self prices_url (Some (prices_params crypto_ids))
              (range (max_retries self)) (record [announce crypto_ids] w) Hexp)
    as [r [tr Hloop]].
  rewrite fetch_with_retry_loop. unfold and_then at 1. rewrite bind_run, Hloop.
  destruct r as [[resp|]|]; simpl; try discriminate.
  destruct (ok resp); [|discriminate].
  destruct (json_body resp) as [data|msg|name msg]; [|discriminate|].
  - destruct (validate_price_data self data crypto_ids _) as [[[|]|e0] w2] eqn:Hvalid;
      try discriminate.
    apply (f_equal fst) in Hvalid.
    apply validate_price_data_raise_inv in Hvalid as [d [c [entry [_ [_ [_ [_ ->]]]]]]].
    simpl. intros Heq. inversion Heq. eauto 6.
  - simpl. intros Heq. inversion Heq. eauto 6.
Qed.

Lemma fetch_crypto_prices_escaping_exceptions_witness :
  is_request_exception (TypeError "argument of type 'int' is not iterable") = false /\
  is_json_decode_error (TypeError "argument of type 'int' is not iterable") = false /\
  ((exists msg, TypeError "argument of type 'int' is not iterable" = TypeError msg) \/
   (exists name msg, TypeError "argument of type 'int' is not iterable" = OtherError name msg)).
Proof.
  apply (fetch_crypto_prices_escaping_exceptions Fixtures.fetcher ["bitcoin"]
           (Fixtures.world_serving (Fixtures.ok_response Payloads.number_entry))).
  - intros k. exact I.
  - vm_compute. reflexivity.
Defined.

Section Requests.

Variable self : t.

(** The requests of a call of [fetch_with_retry]: at most [max_retries]
    copies of one request. *)
Lemma fetch_with_retry_requests url params w :
  exists (n : nat) (tr : list event),
    (n <= Z.to_nat (max_retries self))%nat /\
    (fetch_with_retry self url params w).2 = record tr w /\
    gets tr = replicate n (request_of self url params).
Proof.
  destruct (fetch_with_retry_outcome self url params w)
    as [[_ [tr [Hrun Hio]]]|[k [Hk [_ [[resp [tr [_ [_ [Hrun Hio]]]]]|[e [tr [_ [_ [Hrun Hio]]]]]]]]]].
  - exists (Z.to_nat (max_retries self)), tr. split; [lia|]. split; [by rewrite Hrun|].
    by rewrite <- gets_io_events, Hio, gets_backoff_schedule.
  - exists (S k), tr. split; [lia|]. split; [by rewrite Hrun|].
    by rewrite <- gets_io_events, Hio, gets_backoff_schedule, Nat2Z.id.
  - exists (S k), tr. split; [lia|]. split; [by rewrite Hrun|].
    by rewrite <- gets_io_events, Hio, gets_backoff_schedule, Nat2Z.id.
Qed.

End Requests.

(** Two descriptions of one world: the log is compared after the nested
    [record]s are merged. *)
Ltac same_world :=
  simpl; rewrite ?record_record; simpl; rewrite <- ?app_assoc, ?app_nil_r; reflexivity.

(** X14.  One batched request serves all ids: every request a call of
    [fetch_crypto_prices] sends goes to the price endpoint with the ids
    joined by commas in its [ids] parameter, and the call sends at most
    [max_retries] of them, however many ids are asked for and whatever the
    network answers. *)
Theorem fetch_crypto_prices_requests (self : t) (crypto_ids : list string) (w : world) :
  exists (n : nat) (tr : list event),
    (n <= Z.to_nat (max_retries self))%nat /\
    (fetch_crypto_prices self crypto_ids w).2 = record tr w /\
    gets tr = replicate n (request_of self prices_url (Some (prices_params crypto_ids))) /\
    prices_params crypto_ids !! "ids" = Some (join "," crypto_ids).
Proof.
  destruct (fetch_with_retry_requests self prices_url (Some (prices_params crypto_ids))
              (record [announce crypto_ids] w)) as [n [tr [Hn [Hworld Hgets]]]].
  assert (Hdone : forall tr', gets tr' = [] ->
    gets ([announce crypto_ids] ++ tr ++ tr')%list =
    replicate n (request_of self prices_url (Some (prices_params crypto_ids)))).
  { intros tr' Htr'. change (gets (tr ++ tr')%list = replicate n
      (request_of self prices_url (Some (prices_params crypto_ids)))).
    by rewrite gets_app, Htr', app_nil_r. }
  exists n. rewrite fetch_crypto_prices_run.
  destruct (fetch_with_retry _ _ _ _) as [[[r|]|e] w1]; simpl in Hworld; subst w1.
  - destruct (ok r).
    + destruct (json_body r) as [data|msg|name msg].
      * destruct (validate_price_data_prints_only self crypto_ids data
                    (record tr (record [announce crypto_ids] w))) as [tr1 [Hw [Hg _]]].
        destruct (validate_price_data self data crypto_ids _) as [[[|]|e] w2];
          simpl in Hw; subst w2.
        -- exists ([announce crypto_ids] ++ tr ++ tr1)%list.
           split; [done|]. split; [same_world|]. split; [by apply Hdone|done].
        -- exists ([announce crypto_ids] ++ tr ++ (tr1 ++ [Print "Invalid or incomplete price data received"]))%list.
           split; [done|]. split; [same_world|].
           split; [apply Hdone; by rewrite gets_app, Hg|done].
        -- destruct (is_json_decode_error e).
           ++ eexists ([announce crypto_ids] ++ tr ++ (tr1 ++ [Print _]))%list.
              split; [done|]. split; [same_world|].
              split; [apply Hdone; by rewrite gets_app, Hg|done].
           ++ exists ([announce crypto_ids] ++ tr ++ tr1)%list.
              split; [done|]. split; [same_world|].
              split; [by apply Hdone|done].
      * eexists ([announce crypto_ids] ++ tr ++ [Print _])%list.
        split; [done|]. split; [same_world|].
        split; [by apply Hdone|done].
      * exists ([announce crypto_ids] ++ tr ++ [])%list.
        split; [done|]. split; [same_world|].
        split; [by apply Hdone|done].
    + exists ([announce crypto_ids] ++ tr ++ [])%list.
      split; [done|]. split; [same_world|].
      split; [by apply Hdone|done].
  - exists ([announce crypto_ids] ++ tr ++ [])%list.
    split; [done|]. split; [same_world|].
    split; [by apply Hdone|done].
  - exists ([announce crypto_ids] ++ tr ++ [])%list.
    split; [done|]. split; [same_world|].
    split; [by apply Hdone|done].
Qed.

(** ** [fetch_additional_market_data]: the dictionary it builds *)

Section MarketFacts.

Variable hashable_slices : bool.
Variable ucd : unicode.

Lemma lift_raise_bind {A B} (e : exn) (f : A -> M B) w :
  (lift (@Raise A e) ≫= f) w = (Raise e, w).
Proof. reflexivity. Qed.

Lemma char_length_take_chars (n : nat) (s : string) :
  (char_length (take_chars n s) <= n)%nat.
Proof.
  revert n. induction s as [|c s IH]; intros n; simpl; [lia|].
  destruct (is_continuation c) eqn:Hc; simpl.
  - rewrite Hc. apply IH.
  - destruct n as [|n]; simpl; [lia|]. rewrite Hc. specialize (IH n). lia.
Qed.

Lemma char_length_append (s1 s2 : string) :
  char_length (s1 ++ s2) = (char_length s1 + char_length s2)%nat.
Proof.
  induction s1 as [|c s1 IH]; simpl; [done|].
  destruct (is_continuation c); rewrite IH; reflexivity.
Qed.

(** The description entry built from the English text [en]. *)
Lemma market_summary_description (d m : gmap string value) (sym : string) w :
  default (VStr EmptyString) (d !! "symbol") = VStr sym ->
  d !! "description" = Some (VDict m) ->
  market_summary hashable_slices ucd (VDict d) w =
  match
    (if truthy (default VNone (m !! "en"))
     then match slice_to hashable_slices (default (VStr EmptyString) (m !! "en")) 100 with
          | Ok head => add_str head "..."
          | Raise e => Raise e
          end
     else Ok (VStr "No description available"))
  with
  | Ok description =>
      (Ok (<["name" := default (VStr "Unknown") (d !! "name")]>
           (<["symbol" := VStr (str_upper ucd sym)]> {["description" := description]})), w)
  | Raise e => (Raise e, w)
  end.
Proof.
  intros Hsym Hdesc. unfold market_summary. cbn [get].
  rewrite lift_ok_bind, lift_ok_bind, Hsym. cbn [upper].
  rewrite lift_ok_bind, lift_ok_bind, Hdesc. cbn [default from_option id get].
  rewrite lift_ok_bind, bind_run.
  destruct (truthy (default VNone (m !! "en"))); [|reflexivity].
  rewrite lift_ok_bind. cbn [get]. rewrite lift_ok_bind.
  destruct (slice_to hashable_slices (default (VStr EmptyString) (m !! "en")) 100)
    as [head|e]; [|reflexivity].
  rewrite lift_ok_bind.
  destruct (add_str head "...") as [description|e]; reflexivity.
Qed.

(** What a dictionary the method builds looks like, whatever the data:
    the name is the entry's or [Unknown], the symbol is the upper-cased
    string symbol of the entry, and the description is the fallback, for
    an English text that is absent or falsy, or the first 100 code points
    of the English text followed by three dots. *)
Lemma market_summary_ok_inv (data : value) w w' (summary : gmap string value) :
  market_summary hashable_slices ucd data w = (Ok summary, w') ->
  exists (d m : gmap string value) (sym text : string),
    data = VDict d /\
    default (VStr EmptyString) (d !! "symbol") = VStr sym /\
    default (VDict ∅) (d !! "description") = VDict m /\
    ((truthy (default VNone (m !! "en")) = false /\ text = "No description available") \/
     (exists en, m !! "en" = Some (VStr en) /\ en <> EmptyString /\
                 text = (take_chars 100 en ++ "...")%string)) /\
    summary = <["name" := default (VStr "Unknown") (d !! "name")]>
              (<["symbol" := VStr (str_upper ucd sym)]> {["description" := VStr text]}) /\
    w' = w.
Proof.
  destruct data as [| | | | | |d]; try discriminate.
  destruct (default (VStr EmptyString) (d !! "symbol")) as [| | | |sym| |] eqn:Hsym;
    try (unfold market_summary; cbn [get];
         rewrite lift_ok_bind, lift_ok_bind, Hsym; discriminate).
  destruct (d !! "description") as [[| | | | | |m]|] eqn:Hdesc;
    try (unfold market_summary; cbn [get];
         rewrite lift_ok_bind, lift_ok_bind, Hsym; cbn [upper];
         rewrite lift_ok_bind, lift_ok_bind, Hdesc; discriminate).
  - rewrite (market_summary_description d m sym w Hsym Hdesc).
    destruct (truthy (default VNone (m !! "en"))) eqn:Htruthy.
    + destruct (m !! "en") as [[| | | |s|l|m']|] eqn:Hen; cbn [default from_option id];
        try discriminate.
      * simpl. intros Hrun. inversion Hrun.
        exists d, m, sym, (take_chars 100 s ++ "...")%string.
        split; [done|]. split; [done|]. split; [by rewrite Hdesc|]. split; [|done].
        right. exists s. split; [done|]. split; [|done].
        intros ->. simpl in Htruthy. discriminate.
      * simpl. destruct hashable_slices; discriminate.
    + intros Hrun. inversion Hrun.
      exists d, m, sym, "No description available".
      split; [done|]. split; [done|]. split; [by rewrite Hdesc|]. split; [by left|done].
  - unfold market_summary. cbn [get].
    rewrite lift_ok_bind, lift_ok_bind, Hsym. cbn [upper].
    rewrite lift_ok_bind, lift_ok_bind, Hdesc. cbn [default from_option id get].
    rewrite lift_ok_bind, lookup_empty. cbn [default from_option truthy].
    rewrite bind_run, ret_run, ret_run.
    intros Hrun. inversion Hrun.
    exists d, ∅, sym, "No description available".
    split; [done|]. split; [done|]. split; [by rewrite Hdesc|]. split; [|done].
    left. by rewrite lookup_empty.
Qed.

End MarketFacts.

Section MarketRaises.

Variable hashable_slices : bool.
Variable ucd : unicode.

(** The exceptions building the dictionary can raise: [AttributeError]
    and [TypeError], and [KeyError] only where slices are hashable. *)
Lemma market_summary_raise_inv (data : value) w w' (e : exn) :
  market_summary hashable_slices ucd data w = (Raise e, w') ->
  is_json_decode_or_key_error e = true ->
  hashable_slices = true.
Proof.
  destruct data as [| | | | | |d]; try (intros Hrun; inversion Hrun; discriminate).
  destruct (default (VStr EmptyString) (d !! "symbol")) as [| | | |sym| |] eqn:Hsym;
    try (unfold market_summary; cbn [get];
         rewrite lift_ok_bind, lift_ok_bind, Hsym; intros Hrun; inversion Hrun; discriminate).
  destruct (d !! "description") as [[| | | | | |m]|] eqn:Hdesc;
    try (unfold market_summary; cbn [get];
         rewrite lift_ok_bind, lift_ok_bind, Hsym; cbn [upper];
         rewrite lift_ok_bind, lift_ok_bind, Hdesc; intros Hrun; inversion Hrun; discriminate).
  rewrite (market_summary_description hashable_slices ucd d m sym w Hsym Hdesc).
  destruct (truthy (default VNone (m !! "en"))); [|discriminate].
  destruct (default (VStr EmptyString) (m !! "en")) as [| | | |s|l|m'];
    try (intros Hrun; inversion Hrun; discriminate).
  simpl. destruct hashable_slices; [done|]. intros Hrun; inversion Hrun; discriminate.
Qed.

End MarketRaises.

(** X16.  When the entry of the coin has an English description that is a
    non-empty string, the description returned is its first 100 code
    points followed by three dots, also when the text is shorter than
    100 code points; it is never longer than 103 code points.  The name
    is the entry's, or [Unknown], and the symbol is the entry's, mapped
    by [str.upper]. *)
Theorem fetch_additional_market_data_truncates (hashable_slices : bool) (ucd : unicode) (self : t)
    (crypto_symbol : string) (w w1 : world) (resp : Response)
    (d m : gmap string value) (sym text : string) :
  fetch_with_retry self (coin_url ucd crypto_symbol) None w = (Ok (Some resp), w1) ->
  json_body resp = Decoded (VDict d) ->
  default (VStr EmptyString) (d !! "symbol") = VStr sym ->
  d !! "description" = Some (VDict m) ->
  m !! "en" = Some (VStr text) ->
  text <> EmptyString ->
  exists description,
    description = (take_chars 100 text ++ "...")%string /\
    (char_length description <= 103)%nat /\
    fetch_additional_market_data hashable_slices ucd self crypto_symbol w =
    (Ok (Some (<["name" := default (VStr "Unknown") (d !! "name")]>
               (<["symbol" := VStr (str_upper ucd sym)]> {["description" := VStr description]}))),
     w1).
Proof.
  intros Hfetch Hjson Hsym Hdesc Hen Htext.
  exists (take_chars 100 text ++ "...")%string. split; [done|]. split.
  - rewrite char_length_append. pose proof (char_length_take_chars 100 text).
    change (char_length "...") with 3%nat. lia.
  - rewrite fetch_additional_market_data_run, Hfetch.
    rewrite (fetch_with_retry_returns_ok _ _ _ _ _ _ Hfetch), Hjson.
    rewrite (market_summary_description hashable_slices ucd d m sym w1 Hsym Hdesc), Hen.
    cbn [default from_option id truthy].
    assert (String.eqb text EmptyString = false) as ->
      by (by apply String.eqb_neq).
    reflexivity.
Qed.

Lemma fetch_additional_market_data_truncates_witness :
  exists description,
    description = (take_chars 100 "Bitcoin is a coin" ++ "...")%string /\
    (char_length description <= 103)%nat /\
    fetch_additional_market_data false Fixtures.ascii_case Fixtures.fetcher "BTC"
      (Fixtures.world_serving (Fixtures.ok_response
         (VDict (<["symbol" := VStr "btc"]>
                 {["description" := VDict {["en" := VStr "Bitcoin is a coin"]}]})))) =
    (Ok (Some (<["name" := default (VStr "Unknown")
                   ((<["symbol" := VStr "btc"]>
                     {["description" := VDict {["en" := VStr "Bitcoin is a coin"]}]}
                       : gmap string value) !! "name")]>
               (<["symbol" := VStr (str_upper Fixtures.ascii_case "btc")]>
                {["description" := VStr description]}))),
     record [Get (request_of Fixtures.fetcher (coin_url Fixtures.ascii_case "BTC") None)]
       (Fixtures.world_serving (Fixtures.ok_response
         (VDict (<["symbol" := VStr "btc"]>
                 {["description" := VDict {["en" := VStr "Bitcoin is a coin"]}]}))))).
Proof.
  apply (fetch_additional_market_data_truncates false Fixtures.ascii_case Fixtures.fetcher "BTC" _ _
           (Fixtures.ok_response
              (VDict (<["symbol" := VStr "btc"]>
                      {["description" := VDict {["en" := VStr "Bitcoin is a coin"]}]})))
           _ {["en" := VStr "Bitcoin is a coin"]} "btc" "Bitcoin is a coin").
  - vm_compute. reflexivity.
  - reflexivity.
  - vm_compute. reflexivity.
  - vm_compute. reflexivity.
  - vm_compute. reflexivity.
  - discriminate.
Defined.

(** X17.  Every dictionary [fetch_additional_market_data] returns is
    built from the entry the response decodes to, and has exactly the
    keys [name], [symbol] and [description]: the name is the entry's or
    [Unknown]; the symbol is the string symbol of the entry (the empty
    string when it has none) mapped by [str.upper]; the description is
    the fallback when the English text is absent or falsy, and else the
    first 100 code points of the English text followed by three dots. *)
Theorem fetch_additional_market_data_shape (hashable_slices : bool) (ucd : unicode) (self : t)
    (crypto_symbol : string) (w w' : world) (summary : gmap string value) :
  fetch_additional_market_data hashable_slices ucd self crypto_symbol w = (Ok (Some summary), w') ->
  exists (resp : Response) (d m : gmap string value) (sym text : string),
    fetch_with_retry self (coin_url ucd crypto_symbol) None w = (Ok (Some resp), w') /\
    json_body resp = Decoded (VDict d) /\
    default (VStr EmptyString) (d !! "symbol") = VStr sym /\
    default (VDict ∅) (d !! "description") = VDict m /\
    ((truthy (default VNone (m !! "en")) = false /\ text = "No description available") \/
     (exists en, m !! "en" = Some (VStr en) /\ en <> EmptyString /\
                 text = (take_chars 100 en ++ "...")%string)) /\
    summary = <["name" := default (VStr "Unknown") (d !! "name")]>
              (<["symbol" := VStr (str_upper ucd sym)]> {["description" := VStr text]}) /\
    dom summary = ({["name"; "symbol"; "description"]} : gset string).
Proof.
  rewrite fetch_additional_market_data_run.
  destruct (fetch_with_retry _ _ _ _) as [[[r|]|e] w1]; try discriminate.
  destruct (ok r); [|discriminate].
  destruct (json_body r) as [data|msg|name msg] eqn:Hjson; [|discriminate|discriminate].
  destruct (market_summary hashable_slices ucd data w1) as [[summary'|e] w2] eqn:Hsum;
    [|destruct (is_json_decode_or_key_error e); discriminate].
  intros Hrun. inversion Hrun; subst summary' w2.
  apply market_summary_ok_inv in Hsum
    as [d [m [sym [text [-> [Hsym [Hdesc [Htext [-> ->]]]]]]]]].
  exists r, d, m, sym, text.
  split; [done|]. split; [done|]. split; [done|]. split; [done|].
  split; [done|]. split; [done|].
  rewrite !dom_insert_L, dom_singleton_L. set_solver.
Qed.

Lemma fetch_additional_market_data_shape_witness :
  exists (resp : Response) (d m : gmap string value) (sym text : string),
    fetch_with_retry Fixtures.fetcher (coin_url Fixtures.ascii_case "bitcoin") None
      (Fixtures.world_serving (Fixtures.ok_response Coins.no_description)) =
      (Ok (Some resp),
       record [Get (request_of Fixtures.fetcher (coin_url Fixtures.ascii_case "bitcoin") None)]
         (Fixtures.world_serving (Fixtures.ok_response Coins.no_description))) /\
    json_body resp = Decoded (VDict d) /\
    default (VStr EmptyString) (d !! "symbol") = VStr sym /\
    default (VDict ∅) (d !! "description") = VDict m /\
    ((truthy (default VNone (m !! "en")) = false /\ text = "No description available") \/
     (exists en, m !! "en" = Some (VStr en) /\ en <> EmptyString /\
                 text = (take_chars 100 en ++ "...")%string)) /\
    (<["name" := VStr "Bitcoin"]>
     (<["symbol" := VStr "BTC"]> {["description" := VStr "No description available"]})
       : gmap string value) =
      <["name" := default (VStr "Unknown") (d !! "name")]>
      (<["symbol" := VStr (str_upper Fixtures.ascii_case sym)]> {["description" := VStr text]}) /\
    dom (<["name" := VStr "Bitcoin"]>
         (<["symbol" := VStr "BTC"]> {["description" := VStr "No description available"]})
           : gmap string value) = ({["name"; "symbol"; "description"]} : gset string).
Proof.
  apply (fetch_additional_market_data_shape false Fixtures.ascii_case Fixtures.fetcher "bitcoin"
           (Fixtures.world_serving (Fixtures.ok_response Coins.no_description))).
  vm_compute. reflexivity.
Defined.

(** X18.  On an interpreter whose slices are not hashable (Python up to
    3.11) [fetch_additional_market_data] returns [None] exactly when the
    transport gave up or decoding the body of the response raised
    [JSONDecodeError]: no content of a decoded body makes it return
    [None]. *)
Theorem fetch_additional_market_data_none_iff (ucd : unicode) (self : t)
    (crypto_symbol : string) (w : world) :
  (fetch_additional_market_data false ucd self crypto_symbol w).1 = Ok None <->
  (fetch_with_retry self (coin_url ucd crypto_symbol) None w).1 = Ok None \/
  exists resp msg,
    (fetch_with_retry self (coin_url ucd crypto_symbol) None w).1 = Ok (Some resp) /\
    json_body resp = NotJSON msg.
Proof.
  rewrite fetch_additional_market_data_run.
  destruct (fetch_with_retry self (coin_url ucd crypto_symbol) None w) as [[[r|]|e] w1] eqn:Hfetch;
    simpl.
  - rewrite (fetch_with_retry_returns_ok _ _ _ _ _ _ Hfetch).
    destruct (json_body r) as [data|msg|name msg] eqn:Hjson.
    + destruct (market_summary false ucd data w1) as [[summary|e] w2] eqn:Hsum.
      * split; [discriminate|]. intros [Hnone|[resp [msg [Hresp Hnojson]]]]; [discriminate|].
        inversion Hresp; subst resp. congruence.
      * destruct (is_json_decode_or_key_error e) eqn:He.
        -- by pose proof (market_summary_raise_inv false ucd data w1 w2 e Hsum He).
        -- split; [discriminate|]. intros [Hnone|[resp [msg [Hresp Hnojson]]]]; [discriminate|].
           inversion Hresp; subst resp. congruence.
    + split; [|done]. intros _. right. eauto.
    + split; [discriminate|]. intros [Hnone|[resp [msg' [Hresp Hnojson]]]]; [discriminate|].
      inversion Hresp; subst resp. congruence.
  - split; [by left|done].
  - split; [discriminate|]. intros [Hnone|[resp [msg [Hresp _]]]]; discriminate.
Qed.

(** X19.  Where slices are hashable (Python 3.12 and later), an English
    description that is a non-empty mapping makes the method print a
    failure line and return [None], the [KeyError] of the slicing being
    handled; on earlier interpreters the same entry makes it raise
    [TypeError]. *)
Theorem fetch_additional_market_data_mapping_text (ucd : unicode) (self : t) (crypto_symbol : string)
    (w w1 : world) (resp : Response) (d m en : gmap string value) (sym : string) :
  fetch_with_retry self (coin_url ucd crypto_symbol) None w = (Ok (Some resp), w1) ->
  json_body resp = Decoded (VDict d) ->
  default (VStr EmptyString) (d !! "symbol") = VStr sym ->
  d !! "description" = Some (VDict m) ->
  m !! "en" = Some (VDict en) ->
  en <> ∅ ->
  (fetch_additional_market_data true ucd self crypto_symbol w).1 = Ok None /\
  (fetch_additional_market_data false ucd self crypto_symbol w).1 =
    Raise (TypeError "unhashable type: 'slice'").
Proof.
  intros Hfetch Hjson Hsym Hdesc Hen Hne.
  rewrite !fetch_additional_market_data_run, Hfetch.
  rewrite (fetch_with_retry_returns_ok _ _ _ _ _ _ Hfetch), Hjson.
  rewrite !(market_summary_description _ ucd d m sym w1 Hsym Hdesc), Hen.
  cbn [default from_option id truthy].
  rewrite bool_decide_eq_false_2 by done. split; reflexivity.
Qed.

Lemma fetch_additional_market_data_mapping_text_witness :
  (fetch_additional_market_data true Fixtures.ascii_case Fixtures.fetcher "bitcoin"
     (Fixtures.world_serving (Fixtures.ok_response
        (VDict {["description" := VDict {["en" := VDict {["text" := VNone]}]}]})))).1
    = Ok None /\
  (fetch_additional_market_data false Fixtures.ascii_case Fixtures.fetcher "bitcoin"
     (Fixtures.world_serving (Fixtures.ok_response
        (VDict {["description" := VDict {["en" := VDict {["text" := VNone]}]}]})))).1
    = Raise (TypeError "unhashable type: 'slice'").
Proof.
  apply (fetch_additional_market_data_mapping_text Fixtures.ascii_case Fixtures.fetcher "bitcoin" _
           (record [Get (request_of Fixtures.fetcher (coin_url Fixtures.ascii_case "bitcoin") None)]
              (Fixtures.world_serving (Fixtures.ok_response
                 (VDict {["description" := VDict {["en" := VDict {["text" := VNone]}]}]}))))
           (Fixtures.ok_response
              (VDict {["description" := VDict {["en" := VDict {["text" := VNone]}]}]}))
           {["description" := VDict {["en" := VDict {["text" := VNone]}]}]}
           {["en" := VDict {["text" := VNone]}]} {["text" := VNone]} EmptyString).
  - vm_compute. reflexivity.
  - reflexivity.
  - vm_compute. reflexivity.
  - vm_compute. reflexivity.
  - vm_compute. reflexivity.
  - intros Hempty. apply (f_equal (fun x : gmap string value => x !! "text")) in Hempty.
    vm_compute in Hempty. discriminate.
Defined.

Section MarketWorld.

Variable hashable_slices : bool.
Variable ucd : unicode.

(** Building the dictionary touches nothing outside the interpreter. *)
Lemma market_summary_world (data : value) w :
  (market_summary hashable_slices ucd data w).2 = w.
Proof.
  destruct data as [| | | | | |d]; try reflexivity.
  destruct (default (VStr EmptyString) (d !! "symbol")) as [| | | |sym| |] eqn:Hsym;
    try (unfold market_summary; cbn [get];
         rewrite lift_ok_bind, lift_ok_bind, Hsym; reflexivity).
  destruct (d !! "description") as [[| | | | | |m]|] eqn:Hdesc;
    try (unfold market_summary; cbn [get];
         rewrite lift_ok_bind, lift_ok_bind, Hsym; cbn [upper];
         rewrite lift_ok_bind, lift_ok_bind, Hdesc; reflexivity).
  rewrite (market_summary_description hashable_slices ucd d m sym w Hsym Hdesc).
  by destruct (if truthy (default VNone (m !! "en")) then _ else _).
Qed.

End MarketWorld.

(** X20.  Every request a call of [fetch_additional_market_data] sends
    goes, without parameters, to the coin endpoint of the lower-cased
    symbol, and the call sends at most [max_retries] of them, whatever
    the network answers and whatever the body holds. *)
Theorem fetch_additional_market_data_requests (hashable_slices : bool) (ucd : unicode) (self : t)
    (crypto_symbol : string) (w : world) :
  exists (n : nat) (tr : list event),
    (n <= Z.to_nat (max_retries self))%nat /\
    (fetch_additional_market_data hashable_slices ucd self crypto_symbol w).2 = record tr w /\
    gets tr = replicate n (request_of self (coin_url ucd crypto_symbol) None).
Proof.
  destruct (fetch_with_retry_requests self (coin_url ucd crypto_symbol) None w)
    as [n [tr [Hn [Hworld Hgets]]]].
  exists n. rewrite fetch_additional_market_data_run.
  destruct (fetch_with_retry _ _ _ _) as [[[r|]|e] w1]; simpl in Hworld; subst w1;
    try (exists tr; done).
  destruct (ok r); [|exists tr; done].
  destruct (json_body r) as [data|msg|name msg]; [| |exists tr; done].
  - pose proof (market_summary_world hashable_slices ucd data (record tr w)) as Hw.
    destruct (market_summary hashable_slices ucd data (record tr w)) as [[summary|e] w2];
      simpl in Hw; subst w2; [exists tr; done|].
    destruct (is_json_decode_or_key_error e); [|exists tr; done].
    eexists (tr ++ [Print _])%list. split; [done|]. split; [same_world|].
    by rewrite gets_app, app_nil_r.
  - eexists (tr ++ [Print _])%list. split; [done|]. split; [same_world|].
    by rewrite gets_app, app_nil_r.
Qed.

(** X21.  A fetcher built by [CryptoDataFetcher(timeout, max_retries)]
    sends every request of [fetch_with_retry] to the url and with the
    parameters it was called with, under the timeout it was built with,
    and with the [User-Agent] and [Accept] headers the constructor sets;
    the other headers of the session are the library's. *)
Theorem init_requests (library_headers : gmap string string) (timeout max_retries : Z)
    (url : string) (params : option (gmap string string)) (w : world) :
  exists tr : list event,
    (fetch_with_retry (init library_headers timeout max_retries) url params w).2 = record tr w /\
    forall r, In r (gets tr) ->
      req_url r = url /\ req_params r = params /\ req_timeout r = timeout /\
      req_headers r !! "User-Agent" =
        Some "Mozilla/5.0 (Macintosh; Intel Mac OS X 10_15_7) AppleWebKit/537.36" /\
      req_headers r !! "Accept" =
        Some "application/json,text/html,application/xhtml+xml,application/xml;q=0.9,*/*;q=0.8" /\
      forall header, header <> "User-Agent" -> header <> "Accept" ->
        req_headers r !! header = library_headers !! header.
Proof.
  destruct (fetch_with_retry_requests (init library_headers timeout max_retries) url params w)
    as [n [tr [_ [Hworld Hgets]]]].
  exists tr. split; [done|]. intros r Hr. rewrite Hgets in Hr.
  apply list_elem_of_In, elem_of_replicate in Hr as [-> _].
  unfold request_of, init. cbn [req_url req_params req_timeout req_headers
    CryptoDataFetcher.timeout session headers].
  split; [done|]. split; [done|]. split; [done|]. split; [apply lookup_insert_eq|].
  split; [rewrite lookup_insert_ne by done; apply lookup_insert_eq|].
  intros header Hua Hacc. by rewrite !lookup_insert_ne.
Qed.
